(** * Sistemas-expertos: the rule engine of [index.py]

    A shallow embedding of the car-fault expert system: the rule record,
    the five shipped rules of [build_rules], the match-collect loop of
    [ExpertSystem.infer], the reporter, the two collaborators that build
    the fact dictionary ([run_cli] and [run_interactive]) with the console
    helpers they use, and the mode selection of [main].

    Python objects that the program shares and may mutate (the fact
    dictionary, the console) are threaded explicitly through every call. *)

From Stdlib Require Import ZArith Ascii.
From stdpp Require Import base option list gmap strings pretty.

(** ** Python values and exceptions *)

(** The objects a fact dictionary holds here: [None], booleans, integers
    and strings.  [bool] is kept apart from [int]: [0 == False] holds in
    Python but [0 is False] does not. *)
Inductive value : Type :=
  | VNone
  | VBool (b : bool)
  | VInt (n : Z)
  | VStr (s : string).

#[global] Instance value_eq_dec : EqDecision value.
Proof. solve_decision. Defined.

(** [bool(v)], the truth value an [if] tests. *)
Definition truthy (v : value) : bool :=
  match v with
  | VNone => false
  | VBool b => b
  | VInt n => negb (Z.eqb n 0)
  | VStr s => negb (String.eqb s "")
  end.

(** [v is False] and [v is True]: identity with the two boolean singletons. *)
Definition is_False (v : value) : bool :=
  match v with VBool false => true | _ => false end.

Definition is_True (v : value) : bool :=
  match v with VBool true => true | _ => false end.

(** [v == w] on these values; a boolean compares as the integer 0 or 1. *)
Definition py_eq (v w : value) : bool :=
  match v, w with
  | VNone, VNone => true
  | VBool a, VBool b => Bool.eqb a b
  | VBool a, VInt n | VInt n, VBool a => Z.eqb n (if a then 1 else 0)%Z
  | VInt n, VInt m => Z.eqb n m
  | VStr s, VStr t => String.eqb s t
  | _, _ => false
  end.

(** Exception classes.  [SystemExit], [KeyboardInterrupt] and
    [GeneratorExit] derive from [BaseException] only, so that
    [except Exception] lets them through. *)
Inductive exc_class : Type :=
  | KeyError | TypeError | ValueError | EOFError | RuntimeError
  | SystemExit | KeyboardInterrupt | GeneratorExit.

Definition is_Exception (c : exc_class) : bool :=
  match c with
  | SystemExit | KeyboardInterrupt | GeneratorExit => false
  | _ => true
  end.

(** A raised exception: its class and the text [str(e)] gives. *)
Record exn : Type := Exn { exc_type : exc_class; exc_str : string }.

Inductive outcome (A : Type) : Type :=
  | Returns (a : A)
  | Raises (e : exn).
Arguments Returns {A} a.
Arguments Raises {A} e.

(** ** Code that runs on a shared dictionary *)

(** A computation handed the (mutable) fact dictionary: it gives back the
    dictionary as it leaves it, and a value or an exception. *)
Definition py (A : Type) : Type :=
  gmap string value -> gmap string value * outcome A.

#[global] Instance py_ret : MRet py := fun A a f => (f, Returns a).

#[global] Instance py_bind : MBind py := fun A B k m f =>
  match m f with
  | (f', Returns a) => k a f'
  | (f', Raises e) => (f', Raises e)
  end.

(** [f.get(k)]: the value, or [None] when the key is absent. *)
Definition get (f : gmap string value) (k : string) : value :=
  default VNone (f !! k).

Definition dict_get (k : string) : py value :=
  fun f => (f, Returns (get f k)).

(** [f[k]]: raises [KeyError] when the key is absent. *)
Definition dict_getitem (k : string) : py value :=
  fun f =>
    match f !! k with
    | Some v => (f, Returns v)
    | None => (f, Raises (Exn KeyError ("'" +:+ k +:+ "'")))
    end.

(** [f[k] = v]. *)
Definition dict_setitem (k : string) (v : value) : py unit :=
  fun f => (<[k := v]> f, Returns tt).

(** [x and y]: [y] is evaluated only when [x] is truthy, else [x]'s value
    is the result. *)
Definition py_and (x y : py value) : py value :=
  v ← x; if truthy v then y else mret v.

(** ** Rules *)

Record Rule : Type := mkRule {
  name : string;
  check : gmap string value -> gmap string value * outcome value;
  diagnosis : string;
  explanation : string
}.

(** ** The inference engine *)

Record ExpertSystem : Type := mkExpertSystem {
  rules : list Rule;
  facts : gmap string value
}.

Definition warning (rule : Rule) (e : exn) : string :=
  "(Advertencia) Error en la regla '" +:+ name rule +:+ "': " +:+ exc_str e.

(** The [for] loop of [infer]: [f] is the dictionary [self.facts] refers
    to, [out] the lines printed so far, [results] the list being built. *)
Fixpoint infer_loop (rs : list Rule) (f : gmap string value)
    (out : list string) (results : list (Rule * string))
  : gmap string value * list string * outcome (list (Rule * string)) :=
  match rs with
  | [] => (f, out, Returns results)
  | rule :: rs' =>
      match check rule f with
      | (f', Returns v) =>
          if truthy v
          then infer_loop rs' f' out (results ++ [(rule, diagnosis rule)])
          else infer_loop rs' f' out results
      | (f', Raises e) =>
          if is_Exception (exc_type e)
          then infer_loop rs' f' (out ++ [warning rule e]) results
          else (f', out, Raises e)
      end
  end.

Definition infer (self : ExpertSystem) (out : list string)
  : ExpertSystem * list string * outcome (list (Rule * string)) :=
  match infer_loop (rules self) (facts self) out [] with
  | (f', out', r) => (mkExpertSystem (rules self) f', out', r)
  end.

(** ** The shipped rules *)

(** The five entries of the list [build_rules] returns, in its order. *)
Definition rule_bateria : Rule :=
  mkRule "No arranca + tablero apagado"
    (py_and (v ← dict_get "arranca"; mret (VBool (is_False v)))
            (v ← dict_get "tablero"; mret (VBool (is_False v))))
    "batería descargada"
    "Si el auto no arranca y el tablero está apagado, suele ser batería descargada.".

Definition rule_arranque : Rule :=
  mkRule "No arranca + tablero encendido"
    (py_and (v ← dict_get "arranca"; mret (VBool (is_False v)))
            (v ← dict_get "tablero"; mret (VBool (is_True v))))
    "fallo en el motor de arranque"
    "Si el tablero enciende pero el motor no gira, suele ser el motor de arranque o su circuito.".

Definition rule_combustible : Rule :=
  mkRule "Se apaga al acelerar"
    (py_and (v ← dict_get "arranca"; mret (VBool (is_True v)))
            (v ← dict_get "apaga_al_acelerar"; mret (VBool (is_True v))))
    "problema en el suministro de combustible"
    "Apagarse al acelerar apunta a filtro tapado, bomba débil o inyección.".

Definition rule_humo_negro : Rule :=
  mkRule "Humo negro"
    (v ← dict_get "humo"; mret (VBool (py_eq v (VStr "negro"))))
    "mezcla rica de combustible"
    "El humo negro indica exceso de combustible en la mezcla aire/combustible.".

Definition rule_junta : Rule :=
  mkRule "Humo blanco constante"
    (v ← dict_get "humo"; mret (VBool (py_eq v (VStr "blanco_constante"))))
    "falla en la junta de culata"
    "El humo blanco continuo puede ser refrigerante quemándose por daño en la junta de culata.".

Definition build_rules : list Rule :=
  [rule_bateria; rule_arranque; rule_combustible; rule_humo_negro; rule_junta].

(** ** The reporter *)

Definition nl : string := String "010"%char "".

(** The lines one match prints; [i] is its 1-based position. *)
Definition show_match (i : nat) (m : Rule * string) : list string :=
  [ pretty i +:+ ". Posible causa: " +:+ m.2;
    "   (Regla: " +:+ name m.1 +:+ ")";
    "   ¿Por qué?: " +:+ explanation m.1 +:+ nl ].

Definition show_results (matches : list (Rule * string)) (out : list string)
  : list string :=
  let out := out ++ [nl +:+ "=== Resultado ==="] in
  match matches with
  | [] => out ++ ["No se encontró un diagnóstico con las reglas actuales."]
  | _ => out ++ mjoin (imap (fun i m => show_match (S i) m) matches)
  end.

(** ** Flag mode *)

(** The parsed flags; an absent flag is [None]. *)
Module Args.

Record Namespace : Type := mkNamespace {
  modo : option string;
  arranca : option string;
  tablero : option string;
  apaga_al_acelerar : option string;
  humo : option string
}.

End Args.

(** [{"si": True, "no": False}.get(flag, d)] *)
Definition si_no : gmap string bool := <["no" := false]> (<["si" := true]> ∅).

Definition si_no_get (flag : option string) (d : bool) : bool :=
  default d (flag ≫= (fun k => si_no !! k)).

(** The local variables of [run_cli] after its defaults and its two
    coherence tests. *)
Definition cli_arranca (args : Args.Namespace) : bool :=
  si_no_get (Args.arranca args) true.

Definition cli_tablero (args : Args.Namespace) : bool :=
  let arranca := cli_arranca args in
  let tablero := si_no_get (Args.tablero args) true in
  let tablero :=
    if arranca && bool_decide (Args.tablero args = None)
    then true else tablero in
  if negb arranca && bool_decide (Args.tablero args = None)
  then false else tablero.

Definition cli_apaga (args : Args.Namespace) : bool :=
  si_no_get (Args.apaga_al_acelerar args) false.

(** [args.humo or "ninguno"] *)
Definition cli_humo (args : Args.Namespace) : string :=
  match Args.humo args with
  | Some s => if String.eqb s "" then "ninguno" else s
  | None => "ninguno"
  end.

(** The dictionary [run_cli] builds before it creates the engine. *)
Definition cli_facts (args : Args.Namespace) : gmap string value :=
  <["humo" := VStr (cli_humo args)]>
    (<["apaga_al_acelerar" := VBool (cli_apaga args)]>
      (<["tablero" := VBool (cli_tablero args)]>
        (<["arranca" := VBool (cli_arranca args)]> ∅))).

(** [run_cli] returns nothing; here a normal return carries the engine
    object the call created, so that the dictionary handed to the engine
    can be observed. *)
Definition run_cli (args : Args.Namespace) (out : list string)
  : list string * outcome ExpertSystem :=
  let out :=
    out ++ ["=== Sistema Experto: Diagnóstico de Fallas de Automóvil (CLI) ===" +:+ nl] in
  let facts := cli_facts args in
  let es := mkExpertSystem build_rules facts in
  match infer es out with
  | (es', out', Returns matches) => (show_results matches out', Returns es')
  | (_, out', Raises e) => (out', Raises e)
  end.

(** ** Interactive mode *)

(** [str.strip] and [str.lower] on ASCII text: bytes above 127 are left as
    they are, so the accented answer is compared byte for byte. *)
Definition is_space (a : ascii) : bool :=
  let n := nat_of_ascii a in
  (Nat.leb 9 n && Nat.leb n 13) || (Nat.leb 28 n && Nat.leb n 32).

Fixpoint lstrip (s : string) : string :=
  match s with
  | String a s' => if is_space a then lstrip s' else s
  | EmptyString => EmptyString
  end.

Definition str_strip (s : string) : string :=
  String.rev (lstrip (String.rev (lstrip s))).

Definition lower_ascii (a : ascii) : ascii :=
  let n := nat_of_ascii a in
  if Nat.leb 65 n && Nat.leb n 90 then ascii_of_nat (n + 32) else a.

Fixpoint str_lower (s : string) : string :=
  match s with
  | String a s' => String (lower_ascii a) (str_lower s')
  | EmptyString => EmptyString
  end.

(** The console: the lines still to be read, and the texts written so far
    (one entry per [print] or [input] prompt). *)
Record console : Type := mkConsole {
  stdin : list string;
  stdout : list string
}.

Definition io (A : Type) : Type := console -> console * outcome A.

#[global] Instance io_ret : MRet io := fun A a c => (c, Returns a).

#[global] Instance io_bind : MBind io := fun A B k m c =>
  match m c with
  | (c', Returns a) => k a c'
  | (c', Raises e) => (c', Raises e)
  end.

Definition print (s : string) : io unit :=
  fun c => (mkConsole (stdin c) (stdout c ++ [s]), Returns tt).

Definition eof : exn := Exn EOFError "EOF when reading a line".

(** [ask_yes_no]: the [while True] loop reads lines until one is a yes or
    a no; [input] raises [EOFError] when no line is left. *)
Fixpoint ask_yes_no_loop (prompt : string) (lines : list string)
    (out : list string) : console * outcome bool :=
  let out := out ++ [prompt +:+ " [s/n]: "] in
  match lines with
  | [] => (mkConsole [] out, Raises eof)
  | line :: rest =>
      let ans := str_lower (str_strip line) in
      if bool_decide (ans ∈ ["s"; "si"; "sí"; "y"; "yes"])
      then (mkConsole rest out, Returns true)
      else if bool_decide (ans ∈ ["n"; "no"])
      then (mkConsole rest out, Returns false)
      else ask_yes_no_loop prompt rest
             (out ++ ["👉 Responde con 's' para sí o 'n' para no."])
  end.

Definition ask_yes_no (prompt : string) : io bool :=
  fun c => ask_yes_no_loop prompt (stdin c) (stdout c).

(** [{str(i + 1): opt for i, opt in enumerate(options)}] *)
Definition choice_table (options : list string) : gmap string string :=
  foldl (fun m kv => <[kv.1 := kv.2]> m) ∅
    (imap (fun i opt => (pretty (S i), opt)) options).

Fixpoint ask_choice_loop (prompt : string) (options : list string)
    (lines : list string) (out : list string) : console * outcome string :=
  let opts := choice_table options in
  let out := out ++ [prompt]
                 ++ imap (fun i opt => "  " +:+ pretty (S i) +:+ ". " +:+ opt) options
                 ++ ["Elige una opción: "] in
  match lines with
  | [] => (mkConsole [] out, Raises eof)
  | line :: rest =>
      let ans := str_strip line in
      match opts !! ans with
      | Some opt => (mkConsole rest out, Returns opt)
      | None => ask_choice_loop prompt options rest
                  (out ++ ["👉 Opción inválida, intenta de nuevo."])
      end
  end.

Definition ask_choice (prompt : string) (options : list string) : io string :=
  fun c => ask_choice_loop prompt options (stdin c) (stdout c).

(** [facts.setdefault(k, v)] *)
Definition setdefault (k : string) (v : value) (f : gmap string value)
  : gmap string value :=
  match f !! k with
  | Some _ => f
  | None => <[k := v]> f
  end.

(** The questions of [run_interactive] and the dictionary they fill. *)
Definition interactive_facts : io (gmap string value) :=
  let facts : gmap string value := ∅ in
  arranca ← ask_yes_no "¿El auto arranca?";
  let facts := <["arranca" := VBool arranca]> facts in
  facts ← (if negb arranca
           then
             tablero ← ask_yes_no "¿Las luces del tablero encienden?";
             mret (<["tablero" := VBool tablero]> facts)
           else
             apaga ← ask_yes_no "¿El auto se apaga al acelerar?";
             let facts := <["apaga_al_acelerar" := VBool apaga]> facts in
             mret (setdefault "tablero" (VBool true) facts)) : io (gmap string value);
  hay_humo ← ask_yes_no "¿Sale humo notable por el escape?";
  if (hay_humo : bool)
  then
    color ← ask_choice "¿De qué color es el humo?"
              ["Negro"; "Blanco"; "Blanco (constante)"; "Ninguno/No seguro"];
    mret (if String.prefix "negro" (str_lower color)
          then <["humo" := VStr "negro"]> facts
          else if String.prefix "blanco (constante)" (str_lower color)
          then <["humo" := VStr "blanco_constante"]> facts
          else if String.prefix "blanco" (str_lower color)
          then <["humo" := VStr "blanco"]> facts
          else <["humo" := VStr "ninguno"]> facts)
  else mret (<["humo" := VStr "ninguno"]> facts).

(** As for [run_cli], a normal return carries the engine object. *)
Definition run_interactive : io ExpertSystem :=
  fun c =>
    let banner :=
      "=== Sistema Experto: Diagnóstico de Fallas de Automóvil (Interactivo) ===" +:+ nl in
    match (_ ← print banner; interactive_facts) c with
    | (c', Raises e) => (c', Raises e)
    | (c', Returns facts) =>
        let es := mkExpertSystem build_rules facts in
        match infer es (stdout c') with
        | (es', out', Returns matches) =>
            (mkConsole (stdin c') (show_results matches out'), Returns es')
        | (_, out', Raises e) => (mkConsole (stdin c') out', Raises e)
        end
    end.

(** ** Mode selection *)

(** [any(v is not None for v in [...])] over the four symptom flags. *)
Definition passed_flags (args : Args.Namespace) : bool :=
  existsb (fun v : option string => negb (bool_decide (v = None)))
    [Args.arranca args; Args.tablero args; Args.apaga_al_acelerar args;
     Args.humo args].

(** [run_cli] writes to the console and never reads it. *)
Definition run_cli_io (args : Args.Namespace) : io ExpertSystem :=
  fun c =>
    match run_cli args (stdout c) with
    | (out', r) => (mkConsole (stdin c) out', r)
    end.

(** [main], from the namespace [parse_args] returned. *)
Definition main (args : Args.Namespace) : io ExpertSystem :=
  if bool_decide (Args.modo args = Some "cli") then run_cli_io args
  else if bool_decide (Args.modo args = Some "interactivo") then run_interactive
  else if passed_flags args then run_cli_io args
  else run_interactive.

(** * Properties of the engine *)

(** ** What one pass computes *)

(** Whether the rule's condition is truthy on [f], and the exception it
    raises there, if any. *)
Definition holds (r : Rule) (f : gmap string value) : bool :=
  match (check r f).2 with
  | Returns v => truthy v
  | Raises _ => false
  end.

Definition fault (r : Rule) (f : gmap string value) : option exn :=
  match (check r f).2 with
  | Returns _ => None
  | Raises e => Some e
  end.

(** A runtime fault is an exception [except Exception] catches. *)
Definition catchable (r : Rule) (f : gmap string value) : bool :=
  match fault r f with
  | Some e => is_Exception (exc_type e)
  | None => true
  end.

(** Every rule of the list with the dictionary as that rule receives it:
    a condition may have changed the dictionary for the rules after it. *)
Fixpoint seen (rs : list Rule) (f : gmap string value)
  : list (Rule * gmap string value) :=
  match rs with
  | [] => []
  | r :: rs' => (r, f) :: seen rs' (check r f).1
  end.

(** The dictionary after every condition of the list has run. *)
Definition final_store (rs : list Rule) (f : gmap string value)
  : gmap string value :=
  foldl (fun g r => (check r g).1) f rs.

Definition pair_of (r : Rule) : Rule * string := (r, diagnosis r).

(** The matches of a pass, in rule order. *)
Definition matches (rs : list Rule) (f : gmap string value)
  : list (Rule * string) :=
  map (fun rf => pair_of rf.1)
      (List.filter (fun rf => holds rf.1 rf.2) (seen rs f)).

(** The warnings of a pass, in rule order. *)
Definition warnings (rs : list Rule) (f : gmap string value) : list string :=
  omap (fun rf => warning rf.1 <$> fault rf.1 rf.2) (seen rs f).

Definition all_catchable (rs : list Rule) (f : gmap string value) : Prop :=
  Forall (fun rf => catchable rf.1 rf.2 = true) (seen rs f).

(** A condition that only reads: it leaves the dictionary as it got it. *)
Definition read_only (r : Rule) : Prop := forall f, (check r f).1 = f.

(** The names of the rules that fired. *)
Definition fired (ms : list (Rule * string)) : list string :=
  map (fun m => name m.1) ms.

Definition faulty (r : Rule) (f : gmap string value) : bool :=
  match fault r f with Some _ => true | None => false end.

(** The matches of the rules that raise nothing. *)
Definition matches_of_sound (rs : list Rule) (f : gmap string value)
  : list (Rule * string) :=
  map (fun rf => pair_of rf.1)
      (List.filter (fun rf => holds rf.1 rf.2)
         (List.filter (fun rf => negb (faulty rf.1 rf.2)) (seen rs f))).

(** The rules that raise, each with the dictionary it was handed. *)
Definition faulting (rs : list Rule) (f : gmap string value)
  : list (Rule * gmap string value) :=
  List.filter (fun rf => faulty rf.1 rf.2) (seen rs f).

(** ** The conditions of the shipped rules, read off the lambdas *)

Definition cond_bateria (f : gmap string value) : bool :=
  is_False (get f "arranca") && is_False (get f "tablero").

Definition cond_arranque (f : gmap string value) : bool :=
  is_False (get f "arranca") && is_True (get f "tablero").

Definition cond_combustible (f : gmap string value) : bool :=
  is_True (get f "arranca") && is_True (get f "apaga_al_acelerar").

Definition cond_humo_negro (f : gmap string value) : bool :=
  py_eq (get f "humo") (VStr "negro").

Definition cond_junta (f : gmap string value) : bool :=
  py_eq (get f "humo") (VStr "blanco_constante").

(** The names of the shipped rules that fire on [f], in order. *)
Definition shipped_fired (f : gmap string value) : list string :=
  (if cond_bateria f then ["No arranca + tablero apagado"] else [])
  ++ (if cond_arranque f then ["No arranca + tablero encendido"] else [])
  ++ (if cond_combustible f then ["Se apaga al acelerar"] else [])
  ++ (if cond_humo_negro f then ["Humo negro"] else [])
  ++ (if cond_junta f then ["Humo blanco constante"] else []).

(** ** The table of the specification *)

(** The five conditions as the specification's table words them, over the
    dictionary's lookups: an equality holds only for a key that is present
    with exactly that value. *)
Definition spec_table (f : gmap string value) : list Prop :=
  [ f !! "arranca" = Some (VBool false) /\ f !! "tablero" = Some (VBool false);
    f !! "arranca" = Some (VBool false) /\ f !! "tablero" = Some (VBool true);
    f !! "arranca" = Some (VBool true)
      /\ f !! "apaga_al_acelerar" = Some (VBool true);
    f !! "humo" = Some (VStr "negro");
    f !! "humo" = Some (VStr "blanco_constante") ].

(** The rule's condition is a total, read-only test of [P]: it returns the
    boolean [True] when [P] holds and the boolean [False] when not. *)
Definition decides (f : gmap string value) (r : Rule) (P : Prop) : Prop :=
  (P /\ check r f = (f, Returns (VBool true)))
  \/ (~ P /\ check r f = (f, Returns (VBool false))).

(** ** Sample inputs *)

(** A rule that subscripts the dictionary, and so raises [KeyError] on a
    dictionary without the key. *)
Definition strict_smoke_rule : Rule :=
  mkRule "Humo (estricto)"
    (v ← dict_getitem "humo"; mret (VBool (py_eq v (VStr "negro"))))
    "mezcla rica de combustible"
    "Regla de prueba: lee el humo sin valor por omisión.".

Definition sample_rules : list Rule :=
  [rule_bateria; strict_smoke_rule; rule_arranque; rule_combustible;
   rule_humo_negro; rule_junta].

Definition no_start_facts : gmap string value :=
  <["tablero" := VBool false]> (<["arranca" := VBool false]> ∅).

Definition white_smoke_facts : gmap string value :=
  <["humo" := VStr "blanco"]>
    (<["apaga_al_acelerar" := VBool false]>
      (<["tablero" := VBool true]> (<["arranca" := VBool true]> ∅))).

(** A rule whose condition writes to the dictionary it is handed. *)
Definition meddling_rule : Rule :=
  mkRule "Regla que escribe"
    (_ ← dict_setitem "humo" (VStr "negro"); mret (VBool false))
    "ninguno"
    "Regla de prueba: cambia el humo.".

Definition no_flags : Args.Namespace :=
  Args.mkNamespace None None None None None.

Definition only_no_start : Args.Namespace :=
  Args.mkNamespace None (Some "no") None None None.

(** ** Reading the console *)

(** What [ask_yes_no] makes of one line: a yes, a no, or nothing. *)
Definition answer (line : string) : option bool :=
  let ans := str_lower (str_strip line) in
  if bool_decide (ans ∈ ["s"; "si"; "sí"; "y"; "yes"]) then Some true
  else if bool_decide (ans ∈ ["n"; "no"]) then Some false
  else None.

(** The texts one round of [ask_yes_no] writes for a line it rejects. *)
Definition yes_no_round (prompt : string) : list string :=
  [prompt +:+ " [s/n]: "; "👉 Responde con 's' para sí o 'n' para no."].

(** The texts one round of [ask_choice] writes before it reads. *)
Definition choice_menu (prompt : string) (options : list string)
  : list string :=
  [prompt]
  ++ imap (fun i opt => "  " +:+ pretty (S i) +:+ ". " +:+ opt) options
  ++ ["Elige una opción: "].

Definition choice_round (prompt : string) (options : list string)
  : list string :=
  choice_menu prompt options ++ ["👉 Opción inválida, intenta de nuevo."].

(** The option a line selects, if any. *)
Definition chosen (options : list string) (line : string) : option string :=
  choice_table options !! str_strip line.

Definition cli_banner : string :=
  "=== Sistema Experto: Diagnóstico de Fallas de Automóvil (CLI) ===" +:+ nl.

Definition result_header : string := nl +:+ "=== Resultado ===".

Definition no_diagnosis : string :=
  "No se encontró un diagnóstico con las reglas actuales.".

(** The four keys the shipped rules read. *)
Definition symptom_keys : list string :=
  ["arranca"; "tablero"; "apaga_al_acelerar"; "humo"].

(** A rule that asks the interpreter to exit. *)
Definition exit_rule : Rule :=
  mkRule "Regla que sale"
    (fun f => (f, Raises (Exn SystemExit "0")))
    "ninguno"
    "Regla de prueba: llama a sys.exit.".

Definition black_smoke_facts : gmap string value :=
  <["humo" := VStr "negro"]> no_start_facts.

Definition start_no_dashboard : Args.Namespace :=
  Args.mkNamespace None (Some "si") (Some "no") None None.

(** The texts written for the lines of [junk], one round each. *)
Definition rounds {A : Type} (round : list string) (junk : list A)
  : list string :=
  mjoin (map (fun _ => round) junk).

Definition interactive_banner : string :=
  "=== Sistema Experto: Diagnóstico de Fallas de Automóvil (Interactivo) ===" +:+ nl.

(** Two sessions: three plain noes, and one with a rejected line. *)
Definition no_start_console : console := mkConsole ["n"; "n"; "n"] [].

Definition no_start_engine : ExpertSystem :=
  mkExpertSystem build_rules (<["humo" := VStr "ninguno"]> no_start_facts).

Definition retry_console : console :=
  mkConsole [" N "; "x"; "Si"; "s"; "3"] [].

Definition retry_facts : gmap string value :=
  <["humo" := VStr "blanco_constante"]>
    (<["tablero" := VBool true]> (<["arranca" := VBool false]> ∅)).

(** * Proofs *)

Lemma seen_fst (rs : list Rule) : forall f, map fst (seen rs f) = rs.
Proof. induction rs as [|r rs IH]; intros f; simpl; [done | by rewrite IH]. Qed.

Lemma seen_read_only (rs : list Rule) (f : gmap string value) :
  Forall read_only rs -> seen rs f = map (fun r => (r, f)) rs.
Proof.
  induction 1 as [|r rs Hr _ IH]; simpl; [done |].
  by rewrite Hr, IH.
Qed.

Lemma final_store_read_only (rs : list Rule) (f : gmap string value) :
  Forall read_only rs -> final_store rs f = f.
Proof.
  unfold final_store. induction 1 as [|r rs Hr _ IH]; simpl; [done |].
  by rewrite Hr.
Qed.

Lemma matches_read_only (rs : list Rule) (f : gmap string value) :
  Forall read_only rs ->
  matches rs f = map pair_of (List.filter (fun r => holds r f) rs).
Proof.
  intros H. unfold matches. rewrite (seen_read_only rs f H).
  clear H. induction rs as [|r rs IH]; simpl; [done |].
  destruct (holds r f); simpl; by rewrite IH.
Qed.

(** The loop, with its two accumulators, against the three summaries. *)
Lemma infer_loop_spec (rs : list Rule) :
  forall f out acc,
    all_catchable rs f ->
    infer_loop rs f out acc
    = (final_store rs f, out ++ warnings rs f, Returns (acc ++ matches rs f)).
Proof.
  unfold all_catchable, matches, warnings, final_store.
  induction rs as [|r rs IH]; intros f out acc H; simpl.
  - by rewrite !app_nil_r.
  - apply Forall_cons in H as [Hr H]. simpl in Hr.
    unfold catchable, fault, holds in *. simpl.
    destruct (check r f) as [f' [v|e]] eqn:E; simpl in *.
    + destruct (truthy v); rewrite (IH _ _ _ H); simpl; [|done].
      by rewrite <- app_assoc.
    + rewrite Hr, (IH _ _ _ H). simpl. by rewrite <- app_assoc.
Qed.

Lemma infer_spec (rs : list Rule) (f : gmap string value) (out : list string) :
  all_catchable rs f ->
  infer (mkExpertSystem rs f) out
  = (mkExpertSystem rs (final_store rs f), out ++ warnings rs f,
     Returns (matches rs f)).
Proof.
  intros H. unfold infer. simpl. by rewrite (infer_loop_spec rs f out [] H).
Qed.

(** An exception outside [Exception] ends the pass where it is raised. *)
Lemma infer_loop_propagates (r : Rule) (rs : list Rule)
    (f f' : gmap string value) (e : exn) (out : list string)
    (acc : list (Rule * string)) :
  check r f = (f', Raises e) ->
  is_Exception (exc_type e) = false ->
  infer_loop (r :: rs) f out acc = (f', out, Raises e).
Proof. intros Hc He. simpl. by rewrite Hc, He. Qed.

Lemma matches_sublist (rs : list Rule) :
  forall f, matches rs f `sublist_of` map pair_of rs.
Proof.
  unfold matches. induction rs as [|r rs IH]; intros f; simpl; [done |].
  destruct (holds r f); simpl.
  - apply sublist_skip, IH.
  - apply sublist_cons, IH.
Qed.

Lemma matches_none (rs : list Rule) :
  forall f,
    Forall (fun rf => holds rf.1 rf.2 = false) (seen rs f) -> matches rs f = [].
Proof.
  unfold matches. induction rs as [|r rs IH]; intros f H; simpl; [done |].
  apply Forall_cons in H as [Hr H]. simpl in Hr. rewrite Hr. by apply IH.
Qed.

Lemma matches_elem (rs : list Rule) :
  forall f m,
    m ∈ matches rs f <->
    exists rf, rf ∈ seen rs f /\ holds rf.1 rf.2 = true /\ m = pair_of rf.1.
Proof.
  intros f m. unfold matches. rewrite list_elem_of_fmap. split.
  - intros (rf & -> & Hin). exists rf.
    apply list_elem_of_In, filter_In in Hin as [Hin Hh].
    by rewrite list_elem_of_In.
  - intros (rf & Hin & Hh & ->). exists rf. split; [done |].
    apply list_elem_of_In, filter_In. by rewrite <- list_elem_of_In.
Qed.

(** ** The engine on any rule list *)

(** C1.  For every rule list and fact dictionary, [infer] goes through the
    rules in their order and returns exactly the pairs (rule, diagnosis of
    the rule) of the rules whose condition is truthy on the dictionary
    handed to it: a subsequence of the rule list, in its order, nothing
    sorted or merged; when no condition holds the result is the empty
    list.  Conditions here return a value or raise an exception that
    [except Exception] catches. *)
Theorem infer_returns_matches (rs : list Rule) (f : gmap string value)
    (out : list string) :
  all_catchable rs f ->
  exists es' out',
    infer (mkExpertSystem rs f) out = (es', out', Returns (matches rs f))
    /\ matches rs f `sublist_of` map pair_of rs
    /\ (forall m, m ∈ matches rs f <->
          exists rf, rf ∈ seen rs f /\ holds rf.1 rf.2 = true
                     /\ m = pair_of rf.1)
    /\ (Forall read_only rs ->
          matches rs f = map pair_of (List.filter (fun r => holds r f) rs))
    /\ (Forall (fun rf => holds rf.1 rf.2 = false) (seen rs f) ->
          infer (mkExpertSystem rs f) out = (es', out', Returns [])).
Proof.
  intros H. eexists _, _. split; [apply (infer_spec rs f out H) |].
  split; [apply matches_sublist |].
  split; [apply matches_elem |].
  split; [apply matches_read_only |].
  intros Hn. rewrite (infer_spec rs f out H). by rewrite (matches_none rs f Hn).
Qed.

Lemma infer_returns_matches_witness :
  all_catchable sample_rules no_start_facts
  /\ exists es' out',
       infer (mkExpertSystem sample_rules no_start_facts) []
       = (es', out', Returns (matches sample_rules no_start_facts)).
Proof.
  assert (H : all_catchable sample_rules no_start_facts)
    by (repeat constructor).
  split; [exact H |].
  destruct (infer_returns_matches sample_rules no_start_facts [] H)
    as (es' & out' & Hi & _).
  by exists es', out'.
Defined.

(** A rule that raises does not hold, so the matches of a pass are the
    matches of the rules that raise nothing. *)
Lemma matches_sound (rs : list Rule) :
  forall f, matches rs f = matches_of_sound rs f.
Proof.
  unfold matches, matches_of_sound.
  induction rs as [|r rs IH]; intros f; simpl; [done |].
  unfold faulty, fault, holds at 1 3. simpl.
  destruct ((check r f).2) as [v|e] eqn:E; simpl.
  - unfold holds at 2. simpl. rewrite E.
    destruct (truthy v); simpl; by rewrite IH.
  - apply IH.
Qed.

(** One warning per rule that raises, in rule order, each with the name
    of its rule between the quotes. *)
Lemma warnings_faulting (rs : list Rule) :
  forall f,
    Forall2 (fun w rf => exists e, fault rf.1 rf.2 = Some e
                                   /\ w = warning rf.1 e)
            (warnings rs f) (faulting rs f).
Proof.
  unfold warnings, faulting.
  induction rs as [|r rs IH]; intros f; simpl; [constructor |].
  unfold faulty. simpl. destruct (fault r f) as [e|] eqn:E; simpl.
  - constructor; [by exists e | apply IH].
  - apply IH.
Qed.

(** C3.  For every rule list and fact dictionary: when conditions raise
    runtime faults (exceptions that [except Exception] catches), [infer]
    still returns normally; every rule of the list is evaluated (the
    dictionary it leaves is the one after all the conditions); the console
    gets one warning per faulting rule, in order, built from that rule's
    name; and the result is exactly the matches of the rules that did not
    fault, in order. *)
Theorem infer_isolates_faults (rs : list Rule) (f : gmap string value)
    (out : list string) :
  all_catchable rs f ->
  infer (mkExpertSystem rs f) out
  = (mkExpertSystem rs (final_store rs f), out ++ warnings rs f,
     Returns (matches_of_sound rs f))
  /\ Forall2 (fun w rf =>
       exists e, (check rf.1 rf.2).2 = Raises e
                 /\ w = "(Advertencia) Error en la regla '" +:+ name rf.1
                        +:+ "': " +:+ exc_str e)
       (warnings rs f) (faulting rs f).
Proof.
  intros H. split.
  - rewrite <- matches_sound. apply (infer_spec rs f out H).
  - eapply Forall2_impl; [apply warnings_faulting |].
    intros w rf (e & He & ->). exists e. split; [|done].
    unfold fault in He. by destruct ((check rf.1 rf.2).2); simplify_eq.
Qed.

Lemma infer_isolates_faults_witness :
  all_catchable sample_rules no_start_facts
  /\ infer (mkExpertSystem sample_rules no_start_facts) []
     = (mkExpertSystem sample_rules no_start_facts,
        ["(Advertencia) Error en la regla 'Humo (estricto)': 'humo'"],
        Returns [pair_of rule_bateria]).
Proof.
  assert (H : all_catchable sample_rules no_start_facts)
    by (repeat constructor).
  split; [exact H |].
  destruct (infer_isolates_faults sample_rules no_start_facts [] H) as [Hi _].
  rewrite Hi. reflexivity.
Defined.

(** ** The shipped rules *)

(** What each shipped condition returns; it hands the dictionary back
    untouched. *)
Lemma check_bateria (f : gmap string value) :
  check rule_bateria f = (f, Returns (VBool (cond_bateria f))).
Proof.
  unfold cond_bateria. cbn -[get is_False].
  unfold py_and, mbind, py_bind, mret, py_ret, dict_get.
  cbn -[get is_False]. by destruct (is_False (get f "arranca")).
Qed.

Lemma check_arranque (f : gmap string value) :
  check rule_arranque f = (f, Returns (VBool (cond_arranque f))).
Proof.
  unfold cond_arranque. cbn -[get is_False is_True].
  unfold py_and, mbind, py_bind, mret, py_ret, dict_get.
  cbn -[get is_False is_True]. by destruct (is_False (get f "arranca")).
Qed.

Lemma check_combustible (f : gmap string value) :
  check rule_combustible f = (f, Returns (VBool (cond_combustible f))).
Proof.
  unfold cond_combustible. cbn -[get is_True].
  unfold py_and, mbind, py_bind, mret, py_ret, dict_get.
  cbn -[get is_True]. by destruct (is_True (get f "arranca")).
Qed.

Lemma check_humo_negro (f : gmap string value) :
  check rule_humo_negro f = (f, Returns (VBool (cond_humo_negro f))).
Proof. reflexivity. Qed.

Lemma check_junta (f : gmap string value) :
  check rule_junta f = (f, Returns (VBool (cond_junta f))).
Proof. reflexivity. Qed.

Create Rewrite HintDb shipped.
#[global] Hint Rewrite check_bateria check_arranque check_combustible
  check_humo_negro check_junta : shipped.

Lemma build_rules_read_only : Forall read_only build_rules.
Proof.
  unfold build_rules, read_only.
  repeat constructor; intros f; by autorewrite with shipped.
Qed.

Lemma build_rules_holds (f : gmap string value) :
  map (fun r => holds r f) build_rules
  = [cond_bateria f; cond_arranque f; cond_combustible f;
     cond_humo_negro f; cond_junta f].
Proof.
  unfold build_rules, holds. cbn [map]. by autorewrite with shipped.
Qed.

Lemma build_rules_catchable (f : gmap string value) :
  all_catchable build_rules f.
Proof.
  unfold all_catchable. rewrite (seen_read_only _ _ build_rules_read_only).
  unfold build_rules, catchable, fault.
  repeat constructor; cbn [fst snd]; by autorewrite with shipped.
Qed.

Lemma fired_build_rules (f : gmap string value) :
  fired (matches build_rules f) = shipped_fired f.
Proof.
  rewrite (matches_read_only _ _ build_rules_read_only).
  unfold build_rules, shipped_fired, holds. cbn [List.filter].
  autorewrite with shipped. cbn [snd truthy].
  by destruct (cond_bateria f), (cond_arranque f), (cond_combustible f),
    (cond_humo_negro f), (cond_junta f).
Qed.

(** One pass over the shipped rules: the engine object and the console
    are as before the call. *)
Lemma infer_build_rules (f : gmap string value) (out : list string) :
  infer (mkExpertSystem build_rules f) out
  = (mkExpertSystem build_rules f, out, Returns (matches build_rules f)).
Proof.
  rewrite (infer_spec _ _ _ (build_rules_catchable f)).
  rewrite (final_store_read_only _ _ build_rules_read_only).
  assert (Hw : warnings build_rules f = []).
  { unfold warnings. rewrite (seen_read_only _ _ build_rules_read_only).
    unfold build_rules, fault. cbn [map omap list_omap fst snd].
    by autorewrite with shipped. }
  by rewrite Hw, app_nil_r.
Qed.

(** The identity and equality tests on a looked-up value, in terms of the
    dictionary's entries. *)
Lemma is_False_get (f : gmap string value) (k : string) :
  is_False (get f k) = true <-> f !! k = Some (VBool false).
Proof.
  unfold get. destruct (f !! k) as [[|[]| |]|]; simpl; naive_solver.
Qed.

Lemma is_True_get (f : gmap string value) (k : string) :
  is_True (get f k) = true <-> f !! k = Some (VBool true).
Proof.
  unfold get. destruct (f !! k) as [[|[]| |]|]; simpl; naive_solver.
Qed.

Lemma py_eq_str_get (f : gmap string value) (k s : string) :
  py_eq (get f k) (VStr s) = true <-> f !! k = Some (VStr s).
Proof.
  unfold get. destruct (f !! k) as [[| | |t]|]; simpl; try naive_solver.
  rewrite String.eqb_eq. naive_solver.
Qed.

Lemma get_absent (f : gmap string value) (k : string) :
  f !! k = None -> get f k = VNone.
Proof. unfold get. by intros ->. Qed.

Lemma cond_bateria_iff (f : gmap string value) :
  cond_bateria f = true
  <-> f !! "arranca" = Some (VBool false) /\ f !! "tablero" = Some (VBool false).
Proof.
  unfold cond_bateria. by rewrite andb_true_iff, !is_False_get.
Qed.

Lemma cond_arranque_iff (f : gmap string value) :
  cond_arranque f = true
  <-> f !! "arranca" = Some (VBool false) /\ f !! "tablero" = Some (VBool true).
Proof.
  unfold cond_arranque. by rewrite andb_true_iff, is_False_get, is_True_get.
Qed.

Lemma cond_combustible_iff (f : gmap string value) :
  cond_combustible f = true
  <-> f !! "arranca" = Some (VBool true)
      /\ f !! "apaga_al_acelerar" = Some (VBool true).
Proof.
  unfold cond_combustible. by rewrite andb_true_iff, !is_True_get.
Qed.

Lemma decides_of_iff (f : gmap string value) (r : Rule) (b : bool) (P : Prop) :
  check r f = (f, Returns (VBool b)) -> (b = true <-> P) -> decides f r P.
Proof.
  intros Hc Hb. unfold decides. rewrite Hc. destruct b.
  - left. split; [by apply Hb | done].
  - right. split; [| done]. intros HP. by apply Hb in HP.
Qed.

(** Which names are among the fired ones. *)
Lemma shipped_fired_elem (f : gmap string value) :
  bool_decide ("No arranca + tablero apagado" ∈ shipped_fired f) = cond_bateria f
  /\ bool_decide ("No arranca + tablero encendido" ∈ shipped_fired f)
     = cond_arranque f
  /\ bool_decide ("Se apaga al acelerar" ∈ shipped_fired f) = cond_combustible f
  /\ bool_decide ("Humo negro" ∈ shipped_fired f) = cond_humo_negro f
  /\ bool_decide ("Humo blanco constante" ∈ shipped_fired f) = cond_junta f.
Proof.
  unfold shipped_fired.
  destruct (cond_bateria f), (cond_arranque f), (cond_combustible f),
    (cond_humo_negro f), (cond_junta f); vm_compute; done.
Qed.

Lemma pair_in_fired (r : Rule) (ms : list (Rule * string)) :
  pair_of r ∈ ms -> name r ∈ fired ms.
Proof.
  intros H. unfold fired. apply list_elem_of_fmap. by exists (pair_of r).
Qed.

(** C2.  [build_rules] takes no input and is one fixed list of exactly
    five rules, in the order of the specification's table; on every
    dictionary each condition is a read-only test that returns [True]
    exactly when its row of the table holds and [False] otherwise.  The
    first rule holds exactly when [arranca] is the boolean [False] and
    [tablero] is the boolean [False].  A key that is absent is read as
    [None], which is neither [True], nor [False], nor equal to any
    string. *)
Theorem build_rules_table (f : gmap string value) (k : string) :
  length build_rules = 5
  /\ map name build_rules
     = ["No arranca + tablero apagado"; "No arranca + tablero encendido";
        "Se apaga al acelerar"; "Humo negro"; "Humo blanco constante"]
  /\ Forall2 (decides f) build_rules (spec_table f)
  /\ head build_rules = Some rule_bateria
  /\ (holds rule_bateria f = true
      <-> f !! "arranca" = Some (VBool false)
          /\ f !! "tablero" = Some (VBool false))
  /\ (f !! k = None ->
      dict_get k f = (f, Returns VNone)
      /\ is_True (get f k) = false /\ is_False (get f k) = false
      /\ forall s, py_eq (get f k) (VStr s) = false).
Proof.
  split; [reflexivity |]. split; [reflexivity |]. split.
  { unfold build_rules, spec_table.
    constructor;
      [eapply decides_of_iff; [apply check_bateria | apply cond_bateria_iff] |].
    constructor;
      [eapply decides_of_iff; [apply check_arranque | apply cond_arranque_iff] |].
    constructor;
      [eapply decides_of_iff;
         [apply check_combustible | apply cond_combustible_iff] |].
    constructor;
      [eapply decides_of_iff; [apply check_humo_negro | apply py_eq_str_get] |].
    constructor;
      [eapply decides_of_iff; [apply check_junta | apply py_eq_str_get] |].
    constructor. }
  split; [reflexivity |]. split.
  { unfold holds. rewrite check_bateria. apply cond_bateria_iff. }
  intros Hk. unfold dict_get. rewrite (get_absent f k Hk).
  repeat split; reflexivity.
Qed.

Lemma build_rules_table_witness :
  no_start_facts !! "humo" = None
  /\ holds rule_bateria no_start_facts = true
  /\ forall s, py_eq (get no_start_facts "humo") (VStr s) = false.
Proof.
  assert (Hk : no_start_facts !! "humo" = None) by reflexivity.
  destruct (build_rules_table no_start_facts "humo")
    as (_ & _ & _ & _ & Hb & Habs).
  split; [exact Hk |]. split.
  - apply Hb. split; reflexivity.
  - apply (Habs Hk).
Defined.

(** C4.  On every dictionary without the key [humo], a pass over the
    shipped rules raises nothing and neither smoke rule is among the
    matches. *)
Theorem missing_humo_no_smoke_match (f : gmap string value)
    (out : list string) :
  f !! "humo" = None ->
  exists ms,
    infer (mkExpertSystem build_rules f) out
    = (mkExpertSystem build_rules f, out, Returns ms)
    /\ ("Humo negro" ∉ fired ms) /\ ("Humo blanco constante" ∉ fired ms)
    /\ (pair_of rule_humo_negro ∉ ms) /\ (pair_of rule_junta ∉ ms).
Proof.
  intros Hk. exists (matches build_rules f).
  split; [apply infer_build_rules |].
  assert (Hn : ("Humo negro" ∉ fired (matches build_rules f))
               /\ ("Humo blanco constante" ∉ fired (matches build_rules f))).
  { rewrite fired_build_rules.
    destruct (shipped_fired_elem f) as (_ & _ & _ & H4 & H5).
    unfold cond_humo_negro in H4. unfold cond_junta in H5.
    rewrite (get_absent f _ Hk) in H4, H5. simpl in H4, H5.
    by apply bool_decide_eq_false in H4, H5. }
  destruct Hn as [H4 H5]. repeat split; [done | done | |].
  - intros H. by apply H4, (pair_in_fired rule_humo_negro).
  - intros H. by apply H5, (pair_in_fired rule_junta).
Qed.

Lemma missing_humo_no_smoke_match_witness :
  no_start_facts !! "humo" = None
  /\ exists ms,
       infer (mkExpertSystem build_rules no_start_facts) []
       = (mkExpertSystem build_rules no_start_facts, [], Returns ms)
       /\ ("Humo negro" ∉ fired ms).
Proof.
  assert (Hk : no_start_facts !! "humo" = None) by reflexivity.
  split; [exact Hk |].
  destruct (missing_humo_no_smoke_match no_start_facts [] Hk)
    as (ms & Hi & Hn & _).
  by exists ms.
Defined.

(** C5.  On every dictionary where [humo] is the string blanco, a pass
    over the shipped rules matches neither smoke rule; the head-gasket
    rule does not fire. *)
Theorem plain_white_smoke_no_match (f : gmap string value)
    (out : list string) :
  f !! "humo" = Some (VStr "blanco") ->
  exists ms,
    infer (mkExpertSystem build_rules f) out
    = (mkExpertSystem build_rules f, out, Returns ms)
    /\ ("Humo negro" ∉ fired ms) /\ ("Humo blanco constante" ∉ fired ms)
    /\ (pair_of rule_humo_negro ∉ ms) /\ (pair_of rule_junta ∉ ms).
Proof.
  intros Hk. exists (matches build_rules f).
  split; [apply infer_build_rules |].
  assert (Hn : ("Humo negro" ∉ fired (matches build_rules f))
               /\ ("Humo blanco constante" ∉ fired (matches build_rules f))).
  { rewrite fired_build_rules.
    destruct (shipped_fired_elem f) as (_ & _ & _ & H4 & H5).
    unfold cond_humo_negro in H4. unfold cond_junta in H5.
    unfold get in H4, H5. rewrite Hk in H4, H5. simpl in H4, H5.
    by apply bool_decide_eq_false in H4, H5. }
  destruct Hn as [H4 H5]. repeat split; [done | done | |].
  - intros H. by apply H4, (pair_in_fired rule_humo_negro).
  - intros H. by apply H5, (pair_in_fired rule_junta).
Qed.

Lemma plain_white_smoke_no_match_witness :
  white_smoke_facts !! "humo" = Some (VStr "blanco")
  /\ exists ms,
       infer (mkExpertSystem build_rules white_smoke_facts) []
       = (mkExpertSystem build_rules white_smoke_facts, [], Returns ms)
       /\ ("Humo blanco constante" ∉ fired ms).
Proof.
  assert (Hk : white_smoke_facts !! "humo" = Some (VStr "blanco"))
    by reflexivity.
  split; [exact Hk |].
  destruct (plain_white_smoke_no_match white_smoke_facts [] Hk)
    as (ms & Hi & _ & Hn & _).
  by exists ms.
Defined.

(** A condition that writes is seen by the rules after it: the model does
    not assume read-only conditions. *)
Example meddling_rule_is_seen :
  infer (mkExpertSystem [meddling_rule; rule_humo_negro] no_start_facts) []
  = (mkExpertSystem [meddling_rule; rule_humo_negro]
       (<["humo" := VStr "negro"]> no_start_facts),
     [], Returns [pair_of rule_humo_negro]).
Proof. reflexivity. Qed.

Lemma shipped_fired_iff (f : gmap string value) :
  ("No arranca + tablero apagado" ∈ shipped_fired f <-> cond_bateria f = true)
  /\ ("No arranca + tablero encendido" ∈ shipped_fired f
      <-> cond_arranque f = true)
  /\ ("Se apaga al acelerar" ∈ shipped_fired f <-> cond_combustible f = true).
Proof.
  destruct (shipped_fired_elem f) as (H1 & H2 & H3 & _).
  rewrite <- H1, <- H2, <- H3. by rewrite !bool_decide_eq_true.
Qed.

(** C7.  A pass over the shipped rules leaves the fact dictionary as it
    was handed to the engine: every shipped condition only reads it. *)
Theorem infer_keeps_facts (f : gmap string value) (out : list string) :
  Forall read_only build_rules
  /\ exists es' out' r,
       infer (mkExpertSystem build_rules f) out = (es', out', r)
       /\ facts es' = f.
Proof.
  split; [apply build_rules_read_only |].
  eexists _, _, _. split; [apply infer_build_rules | reflexivity].
Qed.

(** C8.  Two passes in a row over the shipped rules, on the same engine
    object, return the same ordered list of matches. *)
Theorem infer_twice_same (f : gmap string value) (out : list string) :
  exists es1 out1 ms,
    infer (mkExpertSystem build_rules f) out = (es1, out1, Returns ms)
    /\ infer es1 out1 = (es1, out1, Returns ms).
Proof.
  eexists _, _, _. split; apply infer_build_rules.
Qed.

(** C10.  In a pass over the shipped rules, the rule that needs [arranca]
    to be [True] never fires together with one of the two rules that need
    it to be [False], and these two never fire together either. *)
Theorem start_rules_exclusive (f : gmap string value) (out : list string) :
  exists ms,
    infer (mkExpertSystem build_rules f) out
    = (mkExpertSystem build_rules f, out, Returns ms)
    /\ ~ ("No arranca + tablero apagado" ∈ fired ms
          /\ "Se apaga al acelerar" ∈ fired ms)
    /\ ~ ("No arranca + tablero encendido" ∈ fired ms
          /\ "Se apaga al acelerar" ∈ fired ms)
    /\ ~ ("No arranca + tablero apagado" ∈ fired ms
          /\ "No arranca + tablero encendido" ∈ fired ms)
    /\ ("No arranca + tablero apagado" ∈ fired ms
        \/ "No arranca + tablero encendido" ∈ fired ms ->
        f !! "arranca" = Some (VBool false))
    /\ ("Se apaga al acelerar" ∈ fired ms ->
        f !! "arranca" = Some (VBool true)).
Proof.
  exists (matches build_rules f).
  split; [apply infer_build_rules |].
  rewrite fired_build_rules.
  destruct (shipped_fired_iff f) as (H1 & H2 & H3).
  rewrite H1, H2, H3, cond_bateria_iff, cond_arranque_iff, cond_combustible_iff.
  clear. intuition congruence.
Qed.

Lemma start_rules_exclusive_witness :
  exists ms,
    infer (mkExpertSystem build_rules no_start_facts) []
    = (mkExpertSystem build_rules no_start_facts, [], Returns ms)
    /\ "No arranca + tablero apagado" ∈ fired ms
    /\ ~ "Se apaga al acelerar" ∈ fired ms.
Proof.
  destruct (start_rules_exclusive no_start_facts [])
    as (ms & Hi & Hx & _ & _ & _ & _).
  exists ms. split; [exact Hi |].
  assert (Hb : "No arranca + tablero apagado" ∈ fired ms).
  { rewrite infer_build_rules in Hi. injection Hi as <-.
    rewrite fired_build_rules. vm_compute. constructor. }
  split; [exact Hb |]. intros Hc. apply Hx. by split.
Defined.

(** ** The collaborators *)

Lemma cli_facts_lookup (args : Args.Namespace) :
  cli_facts args !! "arranca" = Some (VBool (cli_arranca args))
  /\ cli_facts args !! "tablero" = Some (VBool (cli_tablero args))
  /\ cli_facts args !! "apaga_al_acelerar" = Some (VBool (cli_apaga args))
  /\ cli_facts args !! "humo" = Some (VStr (cli_humo args)).
Proof.
  unfold cli_facts. repeat split; reflexivity.
Qed.

(** Flag mode hands the engine a dictionary with all four keys. *)
Lemma cli_facts_four_keys (args : Args.Namespace) :
  Forall (fun k => is_Some (cli_facts args !! k))
    ["arranca"; "tablero"; "apaga_al_acelerar"; "humo"].
Proof.
  destruct (cli_facts_lookup args) as (H1 & H2 & H3 & H4).
  repeat constructor; by eexists.
Qed.

Lemma run_cli_engine (args : Args.Namespace) (out : list string) :
  exists out',
    run_cli args out
    = (out', Returns (mkExpertSystem build_rules (cli_facts args))).
Proof.
  unfold run_cli. rewrite infer_build_rules. by eexists.
Qed.

(** C9.  The defaults of flag mode: without the flag, [arranca] is [True],
    [apaga_al_acelerar] is [False] and [humo] is the string ninguno;
    without the [tablero] flag, [tablero] is [False] when [arranca] is
    [False] and [True] when [arranca] is [True].  The call raises nothing
    and the dictionary so built is the one the engine is created with. *)
Theorem run_cli_defaults (args : Args.Namespace) (out : list string) :
  (exists out',
     run_cli args out
     = (out', Returns (mkExpertSystem build_rules (cli_facts args))))
  /\ (Args.arranca args = None ->
      cli_facts args !! "arranca" = Some (VBool true))
  /\ (Args.apaga_al_acelerar args = None ->
      cli_facts args !! "apaga_al_acelerar" = Some (VBool false))
  /\ (Args.humo args = None ->
      cli_facts args !! "humo" = Some (VStr "ninguno"))
  /\ (Args.tablero args = None ->
      cli_facts args !! "arranca" = Some (VBool false) ->
      cli_facts args !! "tablero" = Some (VBool false))
  /\ (Args.tablero args = None ->
      cli_facts args !! "arranca" = Some (VBool true) ->
      cli_facts args !! "tablero" = Some (VBool true)).
Proof.
  destruct (cli_facts_lookup args) as (H1 & H2 & H3 & H4).
  rewrite H1, H2, H3, H4. split.
  { apply run_cli_engine. }
  unfold cli_arranca, cli_tablero, cli_apaga, cli_humo.
  split; [by intros -> |]. split; [by intros -> |]. split; [by intros -> |].
  split; intros -> Ha; injection Ha as Ha; unfold cli_arranca; rewrite Ha;
    reflexivity.
Qed.

Lemma run_cli_defaults_witness :
  (Args.arranca no_flags = None /\ Args.tablero no_flags = None
   /\ cli_facts no_flags
      = <["humo" := VStr "ninguno"]>
          (<["apaga_al_acelerar" := VBool false]>
            (<["tablero" := VBool true]> (<["arranca" := VBool true]> ∅))))
  /\ (Args.tablero only_no_start = None
      /\ cli_facts only_no_start !! "arranca" = Some (VBool false)
      /\ cli_facts only_no_start !! "tablero" = Some (VBool false)).
Proof.
  destruct (run_cli_defaults only_no_start []) as (_ & _ & _ & _ & Hf & _).
  assert (Hn : Args.tablero only_no_start = None) by reflexivity.
  assert (Ha : cli_facts only_no_start !! "arranca" = Some (VBool false))
    by reflexivity.
  split.
  - split; [reflexivity |]. split; reflexivity.
  - split; [exact Hn |]. split; [exact Ha | exact (Hf Hn Ha)].
Defined.

(** What interactive mode puts in the dictionary: [arranca], [tablero]
    and [humo] always, [apaga_al_acelerar] only when the car starts. *)
Lemma interactive_facts_keys (c c' : console) (fs : gmap string value) :
  interactive_facts c = (c', Returns fs) ->
  exists arranca tablero humo,
    fs !! "arranca" = Some (VBool arranca)
    /\ fs !! "tablero" = Some (VBool tablero)
    /\ fs !! "humo" = Some (VStr humo)
    /\ humo ∈ ["negro"; "blanco_constante"; "blanco"; "ninguno"]
    /\ (arranca = true -> tablero = true)
    /\ (arranca = true -> is_Some (fs !! "apaga_al_acelerar"))
    /\ (arranca = false -> fs !! "apaga_al_acelerar" = None).
Proof.
  unfold interactive_facts, mbind, io_bind, mret, io_ret.
  destruct (ask_yes_no _ c) as [c1 [arranca|e]]; [|done].
  destruct arranca; cbn [negb].
  - destruct (ask_yes_no _ c1) as [c2 [apaga|e]]; [|done].
    destruct (ask_yes_no _ c2) as [c3 [hay|e]]; [|done].
    destruct hay.
    + destruct (ask_choice _ _ c3) as [c4 [color|e]]; [|done].
      intros [= _ <-]. exists true, true.
      destruct (String.prefix "negro" _); [|destruct (String.prefix _ _);
        [|destruct (String.prefix _ _)]];
        eexists; (split; [by destruct apaga|]);
        (split; [by destruct apaga|]); (split; [by destruct apaga|]);
        (split; [set_solver|]); (split; [done|]);
        (split; [by destruct apaga; eexists|done]).
    + intros [= _ <-]. exists true, true, "ninguno".
      split; [by destruct apaga|]. split; [by destruct apaga|].
      split; [by destruct apaga|]. split; [set_solver|]. split; [done|].
      split; [by destruct apaga; eexists|done].
  - destruct (ask_yes_no _ c1) as [c2 [tablero|e]]; [|done].
    destruct (ask_yes_no _ c2) as [c3 [hay|e]]; [|done].
    destruct hay.
    + destruct (ask_choice _ _ c3) as [c4 [color|e]]; [|done].
      intros [= _ <-]. exists false, tablero.
      destruct (String.prefix "negro" _); [|destruct (String.prefix _ _);
        [|destruct (String.prefix _ _)]];
        eexists; (split; [by destruct tablero|]);
        (split; [by destruct tablero|]); (split; [by destruct tablero|]);
        (split; [set_solver|]); (split; [done|]);
        (split; [done|by destruct tablero]).
    + intros [= _ <-]. exists false, tablero, "ninguno".
      split; [by destruct tablero|]. split; [by destruct tablero|].
      split; [by destruct tablero|]. split; [set_solver|]. split; [done|].
      split; [done|by destruct tablero].
Qed.

(** C6, at the answers no, no, no.  Interactive mode reaches the engine
    with a dictionary of three keys: [apaga_al_acelerar] is not among
    them, while flag mode always supplies all four. *)
Theorem run_interactive_no_start_lacks_apaga :
  (exists es c,
     run_interactive (mkConsole ["n"; "n"; "n"] []) = (c, Returns es)
     /\ facts es
        = <["humo" := VStr "ninguno"]>
            (<["tablero" := VBool false]> (<["arranca" := VBool false]> ∅))
     /\ facts es !! "apaga_al_acelerar" = None)
  /\ (forall args,
        Forall (fun k => is_Some (cli_facts args !! k))
          ["arranca"; "tablero"; "apaga_al_acelerar"; "humo"]).
Proof.
  split; [| apply cli_facts_four_keys].
  eexists _, _. split; [vm_compute; reflexivity |]. split; reflexivity.
Qed.

(** * Further properties *)

(** ** Composition and bounds of a pass *)

(** The results accumulator only ever grows at its end. *)
Lemma infer_loop_acc (rs : list Rule) :
  forall f out acc,
    infer_loop rs f out acc
    = match infer_loop rs f out [] with
      | (f', out', Returns ms) => (f', out', Returns (acc ++ ms))
      | (f', out', Raises e) => (f', out', Raises e)
      end.
Proof.
  induction rs as [|r rs IH]; intros f out acc; simpl.
  - by rewrite app_nil_r.
  - destruct (check r f) as [f' [v|e]].
    + destruct (truthy v); [|apply IH].
      rewrite (IH f' out (acc ++ [(r, diagnosis r)])).
      rewrite (IH f' out [(r, diagnosis r)]).
      destruct (infer_loop rs f' out []) as [[f'' out''] [ms|e]]; [|done].
      by rewrite <- !app_assoc.
    + destruct (is_Exception (exc_type e)); [apply IH | done].
Qed.

Lemma infer_loop_app (rs1 rs2 : list Rule) :
  forall f out acc,
    infer_loop (rs1 ++ rs2) f out acc
    = match infer_loop rs1 f out acc with
      | (f', out', Returns acc') => infer_loop rs2 f' out' acc'
      | (f', out', Raises e) => (f', out', Raises e)
      end.
Proof.
  induction rs1 as [|r rs1 IH]; intros f out acc; simpl; [done |].
  destruct (check r f) as [f' [v|e]].
  - destruct (truthy v); apply IH.
  - destruct (is_Exception (exc_type e)); [apply IH | done].
Qed.

(** X1.  A pass over the rule list [rs1 ++ rs2] is a pass over [rs1]
    followed by a pass over [rs2] on the dictionary and console the first
    pass left: the matches are those of the first pass, then those of the
    second; an exception that escapes either pass escapes the whole, and
    when it escapes the first the rules of [rs2] are not run. *)
Theorem infer_app (rs1 rs2 : list Rule) (f : gmap string value)
    (out : list string) :
  infer (mkExpertSystem (rs1 ++ rs2) f) out
  = match infer (mkExpertSystem rs1 f) out with
    | (es1, out1, Returns ms1) =>
        match infer (mkExpertSystem rs2 (facts es1)) out1 with
        | (es2, out2, Returns ms2) =>
            (mkExpertSystem (rs1 ++ rs2) (facts es2), out2,
             Returns (ms1 ++ ms2))
        | (es2, out2, Raises e) =>
            (mkExpertSystem (rs1 ++ rs2) (facts es2), out2, Raises e)
        end
    | (es1, out1, Raises e) =>
        (mkExpertSystem (rs1 ++ rs2) (facts es1), out1, Raises e)
    end.
Proof.
  unfold infer. simpl. rewrite infer_loop_app.
  destruct (infer_loop rs1 f out []) as [[f1 out1] [ms1|e]]; simpl; [|done].
  rewrite (infer_loop_acc rs2 f1 out1 ms1).
  by destruct (infer_loop rs2 f1 out1 []) as [[f2 out2] [ms2|e]].
Qed.

(** Each rule gives at most one match or one warning. *)
Lemma infer_loop_bounds (rs : list Rule) :
  forall f out acc,
    match infer_loop rs f out acc with
    | (_, out', r) =>
        exists ws, out' = out ++ ws
          /\ match r with
             | Returns ms' =>
                 exists ms, ms' = acc ++ ms
                            /\ length ws + length ms <= length rs
             | Raises e =>
                 is_Exception (exc_type e) = false /\ length ws < length rs
             end
    end.
Proof.
  induction rs as [|r rs IH]; intros f out acc; simpl.
  - exists []. split; [by rewrite app_nil_r |]. exists [].
    split; [by rewrite app_nil_r | done].
  - destruct (check r f) as [f' [v|e]].
    + destruct (truthy v).
      * specialize (IH f' out (acc ++ [(r, diagnosis r)])).
        destruct (infer_loop rs f' out _) as [[f'' out''] [ms'|e]];
          destruct IH as (ws & -> & IH); exists ws; (split; [done |]).
        -- destruct IH as (ms & -> & Hl). exists ((r, diagnosis r) :: ms).
           split; [by rewrite <- app_assoc | simpl; lia].
        -- destruct IH as [He Hl]. split; [done | lia].
      * specialize (IH f' out acc).
        destruct (infer_loop rs f' out _) as [[f'' out''] [ms'|e]];
          destruct IH as (ws & -> & IH); exists ws; (split; [done |]).
        -- destruct IH as (ms & -> & Hl). exists ms. split; [done | lia].
        -- destruct IH as [He Hl]. split; [done | lia].
    + destruct (is_Exception (exc_type e)) eqn:He.
      * specialize (IH f' (out ++ [warning r e]) acc).
        destruct (infer_loop rs f' _ _) as [[f'' out''] [ms'|e']];
          destruct IH as (ws & -> & IH); exists (warning r e :: ws);
          (split; [by rewrite <- app_assoc |]).
        -- destruct IH as (ms & -> & Hl). exists ms. split; [done | simpl; lia].
        -- destruct IH as [He' Hl]. split; [done | simpl; lia].
      * exists []. split; [by rewrite app_nil_r |]. split; [done | simpl; lia].
Qed.

(** X3.  Whatever the rules do, [infer] keeps the rule list, only adds
    lines to the console, and every rule gives at most one match or one
    warning, never both; the only exceptions it lets out are those that do
    not derive from [Exception]. *)
Theorem infer_bounds (rs : list Rule) (f : gmap string value)
    (out : list string) :
  exists es' ws r,
    infer (mkExpertSystem rs f) out = (es', out ++ ws, r)
    /\ rules es' = rs
    /\ match r with
       | Returns ms => length ws + length ms <= length rs
       | Raises e => is_Exception (exc_type e) = false /\ length ws < length rs
       end.
Proof.
  unfold infer. simpl. pose proof (infer_loop_bounds rs f out []) as H.
  destruct (infer_loop rs f out []) as [[f' out'] r].
  destruct H as (ws & -> & H). exists (mkExpertSystem rs f'), ws, r.
  split; [done |]. split; [done |]. destruct r as [ms'|e]; [|done].
  by destruct H as (ms & -> & Hl).
Qed.

(** X2.  A condition that raises an exception outside [Exception] (an
    exit request, a keyboard interrupt) ends the pass: the exception
    reaches the caller, the rules after it are not evaluated, the matches
    collected so far are not returned, and only the warnings of the rules
    before it have been printed. *)
Theorem infer_lets_exit_through (pre post : list Rule) (r : Rule)
    (f f' : gmap string value) (e : exn) (out : list string) :
  all_catchable pre f ->
  check r (final_store pre f) = (f', Raises e) ->
  is_Exception (exc_type e) = false ->
  infer (mkExpertSystem (pre ++ r :: post) f) out
  = (mkExpertSystem (pre ++ r :: post) f', out ++ warnings pre f, Raises e).
Proof.
  intros Hpre Hc He. unfold infer. simpl.
  rewrite infer_loop_app, (infer_loop_spec pre f out [] Hpre).
  by rewrite (infer_loop_propagates r post _ f' e _ _ Hc He).
Qed.

Lemma infer_lets_exit_through_witness :
  all_catchable [rule_bateria; strict_smoke_rule] no_start_facts
  /\ infer (mkExpertSystem
              ([rule_bateria; strict_smoke_rule] ++ exit_rule :: [rule_arranque])
              no_start_facts) []
     = (mkExpertSystem
          ([rule_bateria; strict_smoke_rule] ++ exit_rule :: [rule_arranque])
          no_start_facts,
        ["(Advertencia) Error en la regla 'Humo (estricto)': 'humo'"],
        Raises (Exn SystemExit "0")).
Proof.
  assert (H : all_catchable [rule_bateria; strict_smoke_rule] no_start_facts)
    by (repeat constructor).
  split; [exact H |].
  apply (infer_lets_exit_through [rule_bateria; strict_smoke_rule]
           [rule_arranque] exit_rule no_start_facts no_start_facts
           (Exn SystemExit "0") [] H); reflexivity.
Defined.

(** ** More on the shipped rules *)

Lemma get_agree (f g : gmap string value) (k : string) :
  f !! k = g !! k -> get f k = get g k.
Proof. unfold get. by intros ->. Qed.

Lemma conds_agree (f g : gmap string value) :
  Forall (fun k => f !! k = g !! k) symptom_keys ->
  map (fun r => holds r f) build_rules = map (fun r => holds r g) build_rules.
Proof.
  unfold symptom_keys. intros H.
  apply Forall_cons in H as [Ha H]. apply Forall_cons in H as [Ht H].
  apply Forall_cons in H as [Hp H]. apply Forall_cons in H as [Hh _].
  rewrite !build_rules_holds.
  unfold cond_bateria, cond_arranque, cond_combustible, cond_humo_negro,
    cond_junta.
  by rewrite (get_agree f g _ Ha), (get_agree f g _ Ht),
    (get_agree f g _ Hp), (get_agree f g _ Hh).
Qed.

Lemma filter_map_ext {A : Type} (p q : A -> bool) (l : list A) :
  map p l = map q l -> List.filter p l = List.filter q l.
Proof.
  induction l as [|x l IH]; simpl; [done |].
  intros [= Hx Hl]. rewrite Hx. by rewrite (IH Hl).
Qed.

(** X4.  The shipped rules read the four symptom keys and nothing else:
    two dictionaries that agree on these keys get the same matches, so
    extra keys are ignored. *)
Theorem shipped_rules_read_four_keys (f g : gmap string value)
    (out : list string) :
  Forall (fun k => f !! k = g !! k) symptom_keys ->
  exists ms,
    infer (mkExpertSystem build_rules f) out
    = (mkExpertSystem build_rules f, out, Returns ms)
    /\ infer (mkExpertSystem build_rules g) out
       = (mkExpertSystem build_rules g, out, Returns ms).
Proof.
  intros H. exists (matches build_rules f).
  split; [apply infer_build_rules |].
  rewrite infer_build_rules. do 2 f_equal.
  rewrite !(matches_read_only _ _ build_rules_read_only).
  f_equal. symmetry. apply filter_map_ext, (conds_agree f g H).
Qed.

Lemma shipped_rules_read_four_keys_witness :
  Forall (fun k => no_start_facts !! k
                   = <["kilometraje" := VInt 120000]> no_start_facts !! k)
    symptom_keys
  /\ exists ms,
       infer (mkExpertSystem build_rules no_start_facts) []
       = (mkExpertSystem build_rules no_start_facts, [], Returns ms)
       /\ infer (mkExpertSystem build_rules
                   (<["kilometraje" := VInt 120000]> no_start_facts)) []
          = (mkExpertSystem build_rules
               (<["kilometraje" := VInt 120000]> no_start_facts), [],
             Returns ms).
Proof.
  assert (H : Forall (fun k => no_start_facts !! k
                = <["kilometraje" := VInt 120000]> no_start_facts !! k)
                symptom_keys) by (repeat constructor).
  split; [exact H |].
  apply (shipped_rules_read_four_keys no_start_facts _ [] H).
Defined.

Lemma start_conds_exclusive (f : gmap string value) :
  cond_bateria f && cond_arranque f = false
  /\ cond_bateria f && cond_combustible f = false
  /\ cond_arranque f && cond_combustible f = false.
Proof.
  unfold cond_bateria, cond_arranque, cond_combustible.
  destruct (get f "arranca") as [|[]| |], (get f "tablero") as [|[]| |];
    simpl; repeat split; try reflexivity; by rewrite ?andb_false_r.
Qed.

Lemma smoke_conds_exclusive (f : gmap string value) :
  cond_humo_negro f && cond_junta f = false.
Proof.
  unfold cond_humo_negro, cond_junta.
  destruct (get f "humo") as [| | |s]; simpl; try reflexivity.
  destruct (String.eqb_spec s "negro") as [->|]; reflexivity.
Qed.

Lemma fired_length (ms : list (Rule * string)) : length (fired ms) = length ms.
Proof. unfold fired. apply length_map. Qed.

(** X5.  A pass over the shipped rules returns at most two matches, and
    the two smoke rules never fire together. *)
Theorem at_most_two_matches (f : gmap string value) (out : list string) :
  exists ms,
    infer (mkExpertSystem build_rules f) out
    = (mkExpertSystem build_rules f, out, Returns ms)
    /\ length ms <= 2
    /\ ~ ("Humo negro" ∈ fired ms /\ "Humo blanco constante" ∈ fired ms).
Proof.
  exists (matches build_rules f). split; [apply infer_build_rules |].
  rewrite <- fired_length, fired_build_rules.
  destruct (start_conds_exclusive f) as (E1 & E2 & E3).
  pose proof (smoke_conds_exclusive f) as E4.
  destruct (shipped_fired_elem f) as (_ & _ & _ & H4 & H5).
  split.
  - unfold shipped_fired.
    destruct (cond_bateria f), (cond_arranque f), (cond_combustible f),
      (cond_humo_negro f), (cond_junta f); simpl in *; try discriminate; lia.
  - intros [Hn Hj].
    assert (Hn' : cond_humo_negro f = true)
      by (rewrite <- H4; by apply bool_decide_eq_true).
    assert (Hj' : cond_junta f = true)
      by (rewrite <- H5; by apply bool_decide_eq_true).
    by rewrite Hn', Hj' in E4.
Qed.

(** X6.  The name of a shipped rule is among the matches [infer]
    returns exactly when the dictionary holds the values of that rule:
    the key present, with exactly the boolean or the string tested. *)
Theorem fired_iff_table (f : gmap string value) (out : list string) :
  exists ms,
    infer (mkExpertSystem build_rules f) out
    = (mkExpertSystem build_rules f, out, Returns ms)
    /\ ("No arranca + tablero apagado" ∈ fired ms
        <-> f !! "arranca" = Some (VBool false)
            /\ f !! "tablero" = Some (VBool false))
    /\ ("No arranca + tablero encendido" ∈ fired ms
        <-> f !! "arranca" = Some (VBool false)
            /\ f !! "tablero" = Some (VBool true))
    /\ ("Se apaga al acelerar" ∈ fired ms
        <-> f !! "arranca" = Some (VBool true)
            /\ f !! "apaga_al_acelerar" = Some (VBool true))
    /\ ("Humo negro" ∈ fired ms <-> f !! "humo" = Some (VStr "negro"))
    /\ ("Humo blanco constante" ∈ fired ms
        <-> f !! "humo" = Some (VStr "blanco_constante")).
Proof.
  exists (matches build_rules f). split; [apply infer_build_rules |].
  rewrite fired_build_rules.
  destruct (shipped_fired_elem f) as (H1 & H2 & H3 & H4 & H5).
  rewrite <- cond_bateria_iff, <- cond_arranque_iff, <- cond_combustible_iff.
  rewrite <- !py_eq_str_get. fold (cond_humo_negro f). fold (cond_junta f).
  rewrite <- H1, <- H2, <- H3, <- H4, <- H5.
  by rewrite !bool_decide_eq_true.
Qed.

(** ** The lines of the report *)

Lemma mjoin_imap_length {A B : Type} (l : list A) :
  forall (f : nat -> A -> list B),
    (forall j y, length (f j y) = 3) ->
    length (mjoin (imap f l)) = 3 * length l.
Proof.
  induction l as [|a l IH]; intros f Hf; simpl; [done |].
  rewrite length_app, Hf, IH; [lia |]. intros j y. apply Hf.
Qed.

Lemma mjoin_imap_lookup {A B : Type} (l : list A) :
  forall (f : nat -> A -> list B) i x k,
    (forall j y, length (f j y) = 3) ->
    l !! i = Some x -> k < 3 ->
    mjoin (imap f l) !! (3 * i + k) = f i x !! k.
Proof.
  induction l as [|a l IH]; intros f i x k Hf Hi Hk; [done |].
  destruct i as [|i]; simpl in Hi.
  - injection Hi as ->. simpl. apply lookup_app_l. rewrite Hf. lia.
  - simpl. rewrite lookup_app_r by (rewrite Hf; lia). rewrite Hf.
    match goal with
    | |- _ !! ?n = _ => replace n with (3 * i + k) by lia
    end.
    exact (IH (f ∘ S) i x k (fun j y => Hf (S j) y) Hi Hk).
Qed.

Lemma show_results_layout (ms : list (Rule * string)) (out : list string) :
  ms <> [] ->
  show_results ms out
  = out ++ result_header :: mjoin (imap (fun j x => show_match (S j) x) ms)
  /\ length (show_results ms out) = length out + 1 + 3 * length ms.
Proof.
  intros Hne.
  assert (Hs : show_results ms out
               = out ++ result_header
                   :: mjoin (imap (fun j x => show_match (S j) x) ms)).
  { unfold show_results. destruct ms as [|m0 ms]; [done |].
    by rewrite <- app_assoc. }
  split; [exact Hs |]. rewrite Hs, length_app. simpl.
  rewrite mjoin_imap_length; [lia | done].
Qed.

(** X7.  The report for a non-empty list of matches keeps what was on the
    console, adds the header and three lines per match, and the lines of
    the match at position [i] are its number [i + 1] with the diagnosis,
    then the rule's name, then its explanation. *)
Theorem show_results_lines (ms : list (Rule * string)) (out : list string)
    (i : nat) (m : Rule * string) :
  ms !! i = Some m ->
  take (length out) (show_results ms out) = out
  /\ length (show_results ms out) = length out + 1 + 3 * length ms
  /\ show_results ms out !! length out = Some result_header
  /\ show_results ms out !! (length out + 1 + 3 * i)
     = Some (pretty (S i) +:+ ". Posible causa: " +:+ m.2)
  /\ show_results ms out !! (length out + 1 + 3 * i + 1)
     = Some ("   (Regla: " +:+ name m.1 +:+ ")")
  /\ show_results ms out !! (length out + 1 + 3 * i + 2)
     = Some ("   ¿Por qué?: " +:+ explanation m.1 +:+ nl).
Proof.
  intros Hi.
  assert (Hne : ms <> []) by (by destruct ms).
  destruct (show_results_layout ms out Hne) as [Hs Hl].
  split; [rewrite Hs; by rewrite take_app_length |].
  split; [exact Hl |]. rewrite Hs.
  split; [by rewrite lookup_app_r, Nat.sub_diag |].
  assert (Hk : forall k, k < 3 ->
     (out ++ result_header
        :: mjoin (imap (fun j x => show_match (S j) x) ms))
       !! (length out + 1 + 3 * i + k) = show_match (S i) m !! k).
  { intros k Hk. rewrite lookup_app_r by lia.
    replace (length out + 1 + 3 * i + k - length out) with (S (3 * i + k))
      by lia.
    simpl.
    by apply (mjoin_imap_lookup ms (fun j x => show_match (S j) x) i m k). }
  split; [rewrite <- (Nat.add_0_r (_ + 3 * i)); apply (Hk 0); lia |].
  split; [apply (Hk 1); lia | apply (Hk 2); lia].
Qed.

Lemma show_results_lines_witness :
  [pair_of rule_bateria; pair_of rule_humo_negro] !! 1
  = Some (pair_of rule_humo_negro)
  /\ show_results [pair_of rule_bateria; pair_of rule_humo_negro] [cli_banner]
       !! 5
     = Some "2. Posible causa: mezcla rica de combustible".
Proof.
  assert (H : [pair_of rule_bateria; pair_of rule_humo_negro] !! 1
              = Some (pair_of rule_humo_negro)) by reflexivity.
  split; [exact H |].
  destruct (show_results_lines _ [cli_banner] 1 _ H) as (_ & _ & _ & Hl & _).
  exact Hl.
Defined.

Lemma show_results_nil_iff (ms : list (Rule * string)) (out : list string) :
  show_results ms out = out ++ [result_header; no_diagnosis] <-> ms = [].
Proof.
  split; [| by intros ->; unfold show_results; rewrite <- app_assoc].
  intros H. destruct ms as [|m ms]; [done |]. exfalso.
  assert (Hne : m :: ms <> []) by done.
  destruct (show_results_layout (m :: ms) out Hne) as [_ Hl].
  rewrite H, length_app in Hl. simpl in Hl. lia.
Qed.

(** X8.  The report is the header followed by the no-diagnosis line
    exactly when the list of matches is empty. *)
Theorem show_results_no_match (ms : list (Rule * string))
    (out : list string) :
  show_results ms out = out ++ [result_header; no_diagnosis] <-> ms = [].
Proof. apply show_results_nil_iff. Qed.

(** ** Reading answers from the console *)

Lemma ask_yes_no_loop_step (prompt line : string) (rest out : list string) :
  ask_yes_no_loop prompt (line :: rest) out
  = match answer line with
    | Some b => (mkConsole rest (out ++ [prompt +:+ " [s/n]: "]), Returns b)
    | None => ask_yes_no_loop prompt rest (out ++ yes_no_round prompt)
    end.
Proof.
  cbn [ask_yes_no_loop]. unfold answer, yes_no_round.
  destruct (bool_decide (_ ∈ ["s"; "si"; "sí"; "y"; "yes"])); [done |].
  destruct (bool_decide (_ ∈ ["n"; "no"])); [done |].
  by rewrite <- app_assoc.
Qed.

Lemma rounds_cons {A : Type} (round : list string) (x : A) (junk : list A) :
  rounds round (x :: junk) = round ++ rounds round junk.
Proof. reflexivity. Qed.

Lemma ask_yes_no_loop_spec (prompt : string) (lines : list string) :
  forall out,
    match ask_yes_no_loop prompt lines out with
    | (c', Returns b) =>
        exists junk line,
          lines = junk ++ line :: stdin c'
          /\ Forall (fun l => answer l = None) junk
          /\ answer line = Some b
          /\ stdout c'
             = out ++ rounds (yes_no_round prompt) junk
                   ++ [prompt +:+ " [s/n]: "]
    | (c', Raises e) =>
        e = eof /\ stdin c' = []
        /\ Forall (fun l => answer l = None) lines
        /\ stdout c'
           = out ++ rounds (yes_no_round prompt) lines
                 ++ [prompt +:+ " [s/n]: "]
    end.
Proof.
  induction lines as [|line rest IH]; intros out.
  - simpl. by repeat split.
  - rewrite ask_yes_no_loop_step. destruct (answer line) as [b|] eqn:Ea.
    + exists [], line. by repeat split.
    + specialize (IH (out ++ yes_no_round prompt)).
      destruct (ask_yes_no_loop prompt rest _) as [c' [b|e]].
      * destruct IH as (junk & l & -> & Hj & Hl & ->).
        exists (line :: junk), l. split; [done |]. split; [by constructor |].
        split; [done |]. unfold rounds. simpl. by rewrite <- !app_assoc.
      * destruct IH as (-> & Hs & Hj & ->).
        split; [done |]. split; [done |]. split; [by constructor |].
        by rewrite rounds_cons, <- !app_assoc.
Qed.


(** The table of [ask_choice]: the key of the option at position [i] is
    [i + 1] in decimal. *)
Lemma foldl_insert_imap (options : list string) :
  forall (g : nat -> string) (m : gmap string string) (k v : string),
    Inj (=) (=) g ->
    foldl (fun m kv => <[kv.1 := kv.2]> m) m
      (imap (fun i opt => (g i, opt)) options) !! k = Some v
    <-> (exists i, options !! i = Some v /\ k = g i)
        \/ (m !! k = Some v /\ forall i, i < length options -> k <> g i).
Proof.
  induction options as [|x l IH]; intros g m k v Hg; simpl.
  - split; [intros H; right; split; [done | intros; lia] | ].
    intros [(i & Hi & _) | [H _]]; done.
  - rewrite (IH (g ∘ S) (<[g 0 := x]> m) k v); [| by apply _].
    split.
    + intros [(i & Hi & ->) | [Hm Hn]].
      * left. by exists (S i).
      * destruct (decide (k = g 0)) as [->|Hne].
        -- rewrite lookup_insert_eq in Hm. injection Hm as ->.
           left. by exists 0.
        -- rewrite lookup_insert_ne in Hm by done. right. split; [done |].
           intros [|i] Hi; [done |]. apply Hn. lia.
    + intros [(i & Hi & ->) | [Hm Hn]].
      * destruct i as [|i]; simpl in Hi.
        -- injection Hi as ->. right. split; [by rewrite lookup_insert_eq |].
           intros i _ Heq. by apply Hg in Heq.
        -- left. by exists i.
      * right. split.
        -- rewrite lookup_insert_ne; [done |]. intros Heq.
           apply (Hn 0); [lia | done].
        -- intros i Hi. apply (Hn (S i)). lia.
Qed.

Lemma choice_table_spec (options : list string) (k v : string) :
  choice_table options !! k = Some v
  <-> exists i, options !! i = Some v /\ k = pretty (S i).
Proof.
  unfold choice_table.
  rewrite (foldl_insert_imap options (fun i => pretty (S i)) ∅ k v).
  - split; [intros [H | [H _]]; done | by left].
  - intros i j H. apply (inj pretty) in H. lia.
Qed.

(** X10.  In the table of [ask_choice] the decimal number [i + 1] selects
    the option at position [i], and a key that is none of these numbers
    selects nothing. *)
Theorem choice_table_numbers (options : list string) (i : nat) (k : string) :
  choice_table options !! pretty (S i) = options !! i
  /\ ((forall j, j < length options -> k <> pretty (S j)) ->
      choice_table options !! k = None).
Proof.
  split.
  - destruct (options !! i) as [v|] eqn:Hi.
    + apply choice_table_spec. by exists i.
    + apply eq_None_not_Some. intros [v Hv].
      apply choice_table_spec in Hv as (j & Hj & Heq).
      apply (inj pretty) in Heq. injection Heq as ->. congruence.
  - intros Hk. apply eq_None_not_Some. intros [v Hv].
    apply choice_table_spec in Hv as (j & Hj & ->).
    apply (Hk j); [by apply lookup_lt_Some in Hj | done].
Qed.

Lemma choice_table_numbers_witness :
  (forall j, j < length ["Negro"; "Blanco"] -> "0" <> pretty (S j))
  /\ choice_table ["Negro"; "Blanco"] !! "2" = Some "Blanco"
  /\ choice_table ["Negro"; "Blanco"] !! "0" = None.
Proof.
  assert (H : forall j, j < length ["Negro"; "Blanco"] -> "0" <> pretty (S j)).
  { intros [|[|j]] Hj; [done | done | simpl in Hj; lia]. }
  split; [exact H |].
  destruct (choice_table_numbers ["Negro"; "Blanco"] 1 "0") as [H1 H2].
  split; [exact H1 | exact (H2 H)].
Defined.

Lemma ask_choice_loop_step (prompt line : string)
    (options rest out : list string) :
  ask_choice_loop prompt options (line :: rest) out
  = match chosen options line with
    | Some opt => (mkConsole rest (out ++ choice_menu prompt options),
                   Returns opt)
    | None => ask_choice_loop prompt options rest
                (out ++ choice_round prompt options)
    end.
Proof.
  cbn [ask_choice_loop]. unfold chosen, choice_round, choice_menu.
  destruct (choice_table options !! str_strip line); [done |].
  by rewrite <- !app_assoc.
Qed.

Lemma ask_choice_loop_spec (prompt : string) (options lines : list string) :
  forall out,
    match ask_choice_loop prompt options lines out with
    | (c', Returns opt) =>
        exists junk line i,
          lines = junk ++ line :: stdin c'
          /\ Forall (fun l => chosen options l = None) junk
          /\ options !! i = Some opt
          /\ str_strip line = pretty (S i)
          /\ stdout c'
             = out ++ rounds (choice_round prompt options) junk
                   ++ choice_menu prompt options
    | (c', Raises e) =>
        e = eof /\ stdin c' = []
        /\ Forall (fun l => chosen options l = None) lines
        /\ stdout c'
           = out ++ rounds (choice_round prompt options) lines
                 ++ choice_menu prompt options
    end.
Proof.
  induction lines as [|line rest IH]; intros out.
  - cbn [ask_choice_loop stdin stdout]. unfold rounds, choice_menu.
    split; [done |]. split; [done |]. split; [constructor | reflexivity].
  - rewrite ask_choice_loop_step.
    destruct (chosen options line) as [opt|] eqn:Ec.
    + apply choice_table_spec in Ec as (i & Hi & Hk).
      exists [], line, i. by repeat split.
    + specialize (IH (out ++ choice_round prompt options)).
      destruct (ask_choice_loop prompt options rest _) as [c' [opt|e]].
      * destruct IH as (junk & l & i & -> & Hj & Hi & Hl & ->).
        exists (line :: junk), l, i. split; [done |].
        split; [by constructor |]. split; [done |]. split; [done |].
        by rewrite rounds_cons, <- !app_assoc.
      * destruct IH as (-> & Hs & Hj & ->).
        split; [done |]. split; [done |]. split; [by constructor |].
        by rewrite rounds_cons, <- !app_assoc.
Qed.


(** X12.  With an empty list of options [ask_choice] never returns an
    option: it reads the input to its end and raises [EOFError]. *)
Theorem ask_choice_no_options (prompt : string) (c : console) :
  exists c', ask_choice prompt [] c = (c', Raises eof) /\ stdin c' = [].
Proof.
  pose proof (ask_choice_loop_spec prompt [] (stdin c) (stdout c)) as H.
  unfold ask_choice.
  destruct (ask_choice_loop prompt [] (stdin c) (stdout c)) as [c' [opt|e]].
  - by destruct H as (junk & l & i & _ & _ & Hi & _).
  - destruct H as (-> & Hs & _). by exists c'.
Qed.

(** ** Flag mode, end to end *)

Lemma si_no_get_spec (flag : option string) (d : bool) :
  si_no_get flag d
  = if bool_decide (flag = Some "no") then false
    else if bool_decide (flag = Some "si") then true else d.
Proof.
  unfold si_no_get, si_no. destruct flag as [k|]; [|done]. simpl.
  destruct (decide (k = "no")) as [->|Hn]; [done |].
  rewrite lookup_insert_ne by done.
  destruct (decide (k = "si")) as [->|Hs]; [done |].
  rewrite lookup_insert_ne by done. rewrite lookup_empty. simpl.
  rewrite !bool_decide_eq_false_2; [done | congruence | congruence].
Qed.

Lemma matches_build_rules (f : gmap string value) :
  matches build_rules f
  = (if cond_bateria f then [pair_of rule_bateria] else [])
    ++ (if cond_arranque f then [pair_of rule_arranque] else [])
    ++ (if cond_combustible f then [pair_of rule_combustible] else [])
    ++ (if cond_humo_negro f then [pair_of rule_humo_negro] else [])
    ++ (if cond_junta f then [pair_of rule_junta] else []).
Proof.
  rewrite (matches_read_only _ _ build_rules_read_only).
  unfold build_rules, holds. cbn [List.filter].
  autorewrite with shipped. cbn [snd truthy].
  by destruct (cond_bateria f), (cond_arranque f), (cond_combustible f),
    (cond_humo_negro f), (cond_junta f).
Qed.

Lemma run_cli_output (args : Args.Namespace) (out : list string) :
  run_cli args out
  = (show_results (matches build_rules (cli_facts args)) (out ++ [cli_banner]),
     Returns (mkExpertSystem build_rules (cli_facts args))).
Proof. unfold run_cli. by rewrite infer_build_rules. Qed.

Lemma cli_conds (args : Args.Namespace) :
  cond_bateria (cli_facts args)
  = negb (cli_arranca args) && negb (cli_tablero args)
  /\ cond_arranque (cli_facts args)
     = negb (cli_arranca args) && cli_tablero args
  /\ cond_combustible (cli_facts args) = cli_arranca args && cli_apaga args
  /\ cond_humo_negro (cli_facts args) = String.eqb (cli_humo args) "negro"
  /\ cond_junta (cli_facts args)
     = String.eqb (cli_humo args) "blanco_constante".
Proof.
  destruct (cli_facts_lookup args) as (H1 & H2 & H3 & H4).
  unfold cond_bateria, cond_arranque, cond_combustible, cond_humo_negro,
    cond_junta, get.
  rewrite H1, H2, H3, H4. simpl.
  by destruct (cli_arranca args), (cli_tablero args), (cli_apaga args).
Qed.

Lemma show_results_first (m : Rule * string) (rest : list (Rule * string))
    (out : list string) :
  show_results (m :: rest) out !! (length out + 1)
  = Some ("1. Posible causa: " +:+ m.2).
Proof.
  destruct (show_results_layout (m :: rest) out) as [-> _]; [done |].
  rewrite lookup_app_r by lia.
  by replace (length out + 1 - length out) with 1 by lia.
Qed.

(** X13.  Flag mode keeps every flag that is given: si is [True], no is
    [False], and a smoke category is stored as it is.  In particular an
    explicit [tablero] flag is kept whatever [arranca] is; the two
    coherence tests only act when the flag is absent. *)
Theorem cli_explicit_flags (args : Args.Namespace) :
  (Args.arranca args = Some "si" ->
   cli_facts args !! "arranca" = Some (VBool true))
  /\ (Args.arranca args = Some "no" ->
      cli_facts args !! "arranca" = Some (VBool false))
  /\ (Args.tablero args = Some "si" ->
      cli_facts args !! "tablero" = Some (VBool true))
  /\ (Args.tablero args = Some "no" ->
      cli_facts args !! "tablero" = Some (VBool false))
  /\ (Args.apaga_al_acelerar args = Some "si" ->
      cli_facts args !! "apaga_al_acelerar" = Some (VBool true))
  /\ (Args.apaga_al_acelerar args = Some "no" ->
      cli_facts args !! "apaga_al_acelerar" = Some (VBool false))
  /\ (forall s, Args.humo args = Some s -> s <> "" ->
      cli_facts args !! "humo" = Some (VStr s)).
Proof.
  destruct (cli_facts_lookup args) as (H1 & H2 & H3 & H4).
  rewrite H1, H2, H3, H4.
  unfold cli_arranca, cli_tablero, cli_apaga, cli_humo.
  split; [by intros -> |]. split; [by intros -> |].
  split.
  { intros ->. rewrite (bool_decide_eq_false_2 (Some "si" = None)) by done.
    by rewrite !andb_false_r. }
  split.
  { intros ->. rewrite (bool_decide_eq_false_2 (Some "no" = None)) by done.
    by rewrite !andb_false_r. }
  split; [by intros -> |]. split; [by intros -> |].
  intros s -> Hs. apply String.eqb_neq in Hs. by rewrite Hs.
Qed.

Lemma cli_explicit_flags_witness :
  Args.arranca start_no_dashboard = Some "si"
  /\ Args.tablero start_no_dashboard = Some "no"
  /\ cli_facts start_no_dashboard !! "arranca" = Some (VBool true)
  /\ cli_facts start_no_dashboard !! "tablero" = Some (VBool false).
Proof.
  destruct (cli_explicit_flags start_no_dashboard)
    as (Ha & _ & _ & Ht & _).
  assert (E1 : Args.arranca start_no_dashboard = Some "si") by reflexivity.
  assert (E2 : Args.tablero start_no_dashboard = Some "no") by reflexivity.
  split; [exact E1 |]. split; [exact E2 |].
  split; [exact (Ha E1) | exact (Ht E2)].
Defined.

(** X14.  In flag mode, a car that does not start always gets a first
    cause: the discharged battery when the dashboard flag is absent or no,
    the starter motor otherwise; it is the line after the header. *)
Theorem cli_no_start_first_cause (args : Args.Namespace)
    (out : list string) :
  Args.arranca args = Some "no" ->
  exists out',
    run_cli args out
    = (out', Returns (mkExpertSystem build_rules (cli_facts args)))
    /\ out' !! (length out + 2)
       = Some ("1. Posible causa: "
               +:+ (if bool_decide (Args.tablero args = None
                                    \/ Args.tablero args = Some "no")
                    then "batería descargada"
                    else "fallo en el motor de arranque")).
Proof.
  intros Ha. eexists. split; [apply run_cli_output |].
  destruct (cli_conds args) as (C1 & C2 & C3 & _).
  assert (Hv : cli_arranca args = false).
  { unfold cli_arranca. by rewrite Ha. }
  assert (Ht : cli_tablero args
               = negb (bool_decide (Args.tablero args = None
                                    \/ Args.tablero args = Some "no"))).
  { unfold cli_tablero. rewrite Hv. cbn [negb andb]. rewrite si_no_get_spec.
    destruct (Args.tablero args) as [t|];
      repeat case_bool_decide; simpl; try done; exfalso; intuition congruence. }
  rewrite Hv, Ht in C1, C2. rewrite Hv in C3. simpl in C1, C2, C3.
  rewrite negb_involutive in C1.
  rewrite matches_build_rules, C1, C2, C3.
  replace (length out + 2) with (length (out ++ [cli_banner]) + 1)
    by (rewrite length_app; simpl; lia).
  destruct (bool_decide (_ \/ _)); apply show_results_first.
Qed.

Lemma cli_no_start_first_cause_witness :
  Args.arranca only_no_start = Some "no"
  /\ exists out',
       run_cli only_no_start []
       = (out', Returns (mkExpertSystem build_rules (cli_facts only_no_start)))
       /\ out' !! 2 = Some "1. Posible causa: batería descargada".
Proof.
  assert (H : Args.arranca only_no_start = Some "no") by reflexivity.
  split; [exact H |].
  destruct (cli_no_start_first_cause only_no_start [] H) as (out' & Hr & Hl).
  exists out'. split; [exact Hr | exact Hl].
Defined.

Lemma matches_build_rules_nil (f : gmap string value) :
  matches build_rules f = []
  <-> cond_bateria f = false /\ cond_arranque f = false
      /\ cond_combustible f = false /\ cond_humo_negro f = false
      /\ cond_junta f = false.
Proof.
  rewrite matches_build_rules.
  destruct (cond_bateria f), (cond_arranque f), (cond_combustible f),
    (cond_humo_negro f), (cond_junta f); simpl; split;
    try done; intros (? & ? & ? & ? & ?); done.
Qed.

Lemma si_no_get_true (flag : option string) :
  si_no_get flag true = true <-> flag <> Some "no".
Proof.
  rewrite si_no_get_spec. repeat case_bool_decide; split; try done; congruence.
Qed.

Lemma si_no_get_false (flag : option string) :
  si_no_get flag false = false <-> flag <> Some "si".
Proof.
  rewrite si_no_get_spec. repeat case_bool_decide; split; try done; congruence.
Qed.

Lemma cli_humo_is (args : Args.Namespace) (s : string) :
  s <> "" -> s <> "ninguno" ->
  String.eqb (cli_humo args) s = false <-> Args.humo args <> Some s.
Proof.
  intros H1 H2. rewrite String.eqb_neq. unfold cli_humo.
  destruct (Args.humo args) as [t|]; [|split; [done | congruence]].
  destruct (String.eqb_spec t "") as [->|Ht]; split; congruence.
Qed.

(** X15.  Flag mode reports that no diagnosis was found exactly when the
    car is not said not to start, is not said to stall on acceleration,
    and the smoke is neither black nor constant white. *)
Theorem cli_no_diagnosis_iff (args : Args.Namespace) (out : list string) :
  (run_cli args out).1 = out ++ [cli_banner; result_header; no_diagnosis]
  <-> Args.arranca args <> Some "no"
      /\ Args.apaga_al_acelerar args <> Some "si"
      /\ Args.humo args <> Some "negro"
      /\ Args.humo args <> Some "blanco_constante".
Proof.
  rewrite run_cli_output. cbn [fst].
  replace (out ++ [cli_banner; result_header; no_diagnosis])
    with ((out ++ [cli_banner]) ++ [result_header; no_diagnosis])
    by (by rewrite <- app_assoc).
  rewrite show_results_nil_iff, matches_build_rules_nil.
  destruct (cli_conds args) as (C1 & C2 & C3 & C4 & C5).
  rewrite C1, C2, C3, C4, C5.
  rewrite <- (si_no_get_true (Args.arranca args)).
  rewrite <- (si_no_get_false (Args.apaga_al_acelerar args)).
  rewrite <- (cli_humo_is args "negro") by done.
  rewrite <- (cli_humo_is args "blanco_constante") by done.
  fold (cli_arranca args). fold (cli_apaga args).
  destruct (cli_arranca args), (cli_tablero args), (cli_apaga args);
    simpl; intuition discriminate.
Qed.

(** ** Interactive mode and mode selection *)

(** X16.  The dictionary interactive mode builds always has [arranca],
    [tablero] and [humo], with [humo] one of the four categories; when
    the car starts [tablero] is [True] and [apaga_al_acelerar] is set,
    and when it does not start [apaga_al_acelerar] is absent. *)
Theorem interactive_store_shape (c c' : console) (fs : gmap string value) :
  interactive_facts c = (c', Returns fs) ->
  exists arranca tablero humo,
    fs !! "arranca" = Some (VBool arranca)
    /\ fs !! "tablero" = Some (VBool tablero)
    /\ fs !! "humo" = Some (VStr humo)
    /\ humo ∈ ["negro"; "blanco_constante"; "blanco"; "ninguno"]
    /\ (arranca = true -> tablero = true)
    /\ (arranca = true -> is_Some (fs !! "apaga_al_acelerar"))
    /\ (arranca = false -> fs !! "apaga_al_acelerar" = None).
Proof. apply interactive_facts_keys. Qed.

Lemma interactive_store_shape_witness :
  interactive_facts retry_console
  = ((interactive_facts retry_console).1, Returns retry_facts)
  /\ retry_facts !! "apaga_al_acelerar" = None.
Proof.
  assert (E : interactive_facts retry_console
              = ((interactive_facts retry_console).1, Returns retry_facts))
    by (vm_compute; reflexivity).
  split; [exact E |].
  destruct (interactive_store_shape retry_console _ retry_facts E)
    as (a & t & h & Ha & _ & _ & _ & _ & _ & Hn).
  apply Hn. vm_compute in Ha. by injection Ha as <-.
Defined.

Lemma ask_yes_no_consumes (prompt : string) (c : console) :
  match ask_yes_no prompt c with
  | (c', Returns _) =>
      exists used, stdin c = used ++ stdin c' /\ 1 <= length used
  | (c', Raises e) => e = eof /\ stdin c' = []
  end.
Proof.
  pose proof (ask_yes_no_loop_spec prompt (stdin c) (stdout c)) as H.
  unfold ask_yes_no.
  destruct (ask_yes_no_loop prompt (stdin c) (stdout c)) as [c' [b|e]].
  - destruct H as (junk & line & -> & _). exists (junk ++ [line]).
    split; [by rewrite <- app_assoc | rewrite length_app; simpl; lia].
  - by destruct H as (-> & -> & _).
Qed.

Lemma ask_choice_consumes (prompt : string) (options : list string)
    (c : console) :
  match ask_choice prompt options c with
  | (c', Returns opt) =>
      opt ∈ options
      /\ exists used, stdin c = used ++ stdin c' /\ 1 <= length used
  | (c', Raises e) => e = eof /\ stdin c' = []
  end.
Proof.
  pose proof (ask_choice_loop_spec prompt options (stdin c) (stdout c)) as H.
  unfold ask_choice.
  destruct (ask_choice_loop prompt options (stdin c) (stdout c))
    as [c' [opt|e]].
  - destruct H as (junk & line & i & -> & _ & Hi & _).
    split; [by apply list_elem_of_lookup_2 in Hi |].
    exists (junk ++ [line]).
    split; [by rewrite <- app_assoc | rewrite length_app; simpl; lia].
  - by destruct H as (-> & -> & _).
Qed.

Lemma interactive_facts_consumes (c : console) :
  match interactive_facts c with
  | (c', Returns _) =>
      exists used, stdin c = used ++ stdin c' /\ 3 <= length used
  | (c', Raises e) => e = eof /\ stdin c' = []
  end.
Proof.
  unfold interactive_facts, mbind, io_bind, mret, io_ret.
  pose proof (ask_yes_no_consumes "¿El auto arranca?" c) as H1.
  destruct (ask_yes_no _ c) as [c1 [arranca|e]]; [|done].
  destruct H1 as (u1 & -> & L1).
  assert (H2 : forall p,
    match ask_yes_no p c1 with
    | (c2, Returns _) =>
        exists used, u1 ++ stdin c1 = used ++ stdin c2 /\ 2 <= length used
    | (c2, Raises e) => e = eof /\ stdin c2 = []
    end).
  { intros p. pose proof (ask_yes_no_consumes p c1) as H.
    destruct (ask_yes_no p c1) as [c2 [b|e]]; [|done].
    destruct H as (u2 & -> & L2). exists (u1 ++ u2).
    split; [by rewrite <- app_assoc | rewrite length_app; lia]. }
  assert (H3 : forall c2 (g : bool -> gmap string value -> io (gmap string value))
                      fs,
    (exists used, u1 ++ stdin c1 = used ++ stdin c2 /\ 2 <= length used) ->
    (forall b c3, match g b fs c3 with
                  | (c4, Returns _) =>
                      exists used, stdin c3 = used ++ stdin c4
                  | (c4, Raises e) => e = eof /\ stdin c4 = []
                  end) ->
    match (match ask_yes_no "¿Sale humo notable por el escape?" c2 with
           | (c3, Returns b) => g b fs c3
           | (c3, Raises e) => (c3, Raises e)
           end) with
    | (c4, Returns _) =>
        exists used, u1 ++ stdin c1 = used ++ stdin c4 /\ 3 <= length used
    | (c4, Raises e) => e = eof /\ stdin c4 = []
    end).
  { intros c2 g fs (u2 & -> & L2) Hg.
    pose proof (ask_yes_no_consumes "¿Sale humo notable por el escape?" c2)
      as H.
    destruct (ask_yes_no _ c2) as [c3 [b|e]]; [|done].
    destruct H as (u3 & -> & L3). specialize (Hg b c3).
    destruct (g b fs c3) as [c4 [r|e]]; [|done].
    destruct Hg as (u4 & ->). exists (u2 ++ u3 ++ u4).
    split; [by rewrite <- !app_assoc | rewrite !length_app; lia]. }
  set (g := fun (hay : bool) (fs : gmap string value) =>
    if hay
    then (fun c3 : console =>
       match ask_choice "¿De qué color es el humo?"
               ["Negro"; "Blanco"; "Blanco (constante)"; "Ninguno/No seguro"]
               c3 with
       | (c4, Returns color) =>
           (c4, Returns
              (if String.prefix "negro" (str_lower color)
               then <["humo" := VStr "negro"]> fs
               else if String.prefix "blanco (constante)" (str_lower color)
               then <["humo" := VStr "blanco_constante"]> fs
               else if String.prefix "blanco" (str_lower color)
               then <["humo" := VStr "blanco"]> fs
               else <["humo" := VStr "ninguno"]> fs))
       | (c4, Raises e) => (c4, Raises e)
       end)
    else (fun c3 : console => (c3, Returns (<["humo" := VStr "ninguno"]> fs)))).
  assert (Hg : forall fs b c3,
    match g b fs c3 with
    | (c4, Returns _) => exists used, stdin c3 = used ++ stdin c4
    | (c4, Raises e) => e = eof /\ stdin c4 = []
    end).
  { intros fs b c3. unfold g. destruct b; [| by exists []].
    pose proof (ask_choice_consumes "¿De qué color es el humo?"
      ["Negro"; "Blanco"; "Blanco (constante)"; "Ninguno/No seguro"] c3) as H.
    destruct (ask_choice _ _ c3) as [c4 [color|e]]; [|done].
    destruct H as (_ & u & -> & _). by exists u. }
  destruct arranca; cbn [negb].
  - specialize (H2 "¿El auto se apaga al acelerar?").
    destruct (ask_yes_no _ c1) as [c2 [apaga|e]]; [|done].
    apply (H3 c2 g _ H2 (Hg _)).
  - specialize (H2 "¿Las luces del tablero encienden?").
    destruct (ask_yes_no _ c1) as [c2 [tablero|e]]; [|done].
    apply (H3 c2 g _ H2 (Hg _)).
Qed.

Lemma run_interactive_spec (c : console) :
  run_interactive c
  = match interactive_facts
            (mkConsole (stdin c) (stdout c ++ [interactive_banner])) with
    | (c', Returns fs) =>
        (mkConsole (stdin c')
           (show_results (matches build_rules fs) (stdout c')),
         Returns (mkExpertSystem build_rules fs))
    | (c', Raises e) => (c', Raises e)
    end.
Proof.
  unfold run_interactive, mbind, io_bind, print. cbn [stdin stdout].
  fold interactive_banner.
  destruct (interactive_facts _) as [c' [fs|e]]; [|done].
  by rewrite infer_build_rules.
Qed.

Lemma run_interactive_cases (c : console) :
  match run_interactive c with
  | (c', Returns es) =>
      rules es = build_rules
      /\ exists used, stdin c = used ++ stdin c' /\ 3 <= length used
  | (c', Raises e) => e = eof /\ stdin c' = []
  end.
Proof.
  rewrite run_interactive_spec.
  pose proof (interactive_facts_consumes
                (mkConsole (stdin c) (stdout c ++ [interactive_banner]))) as H.
  destruct (interactive_facts _) as [c' [fs|e]]; [|done].
  split; [done | exact H].
Qed.

(** X17.  An interactive session either reaches the engine with the
    shipped rules, after reading at least three lines and leaving the
    rest unread, or fails with [EOFError] once the input is used up;
    nothing else can end it. *)
Theorem run_interactive_outcome (c : console) :
  match run_interactive c with
  | (c', Returns es) =>
      rules es = build_rules
      /\ exists used, stdin c = used ++ stdin c' /\ 3 <= length used
  | (c', Raises e) => e = eof /\ stdin c' = []
  end.
Proof. apply run_interactive_cases. Qed.

(** X18.  When an interactive session reports on a car that does not
    start, the first cause printed is the starter motor if the dashboard
    lights up and the discharged battery if not, and at most one further
    match (a smoke rule) follows. *)
Theorem interactive_no_start_first_cause (c c' : console)
    (es : ExpertSystem) :
  run_interactive c = (c', Returns es) ->
  facts es !! "arranca" = Some (VBool false) ->
  exists tablero rest out0,
    facts es !! "tablero" = Some (VBool tablero)
    /\ matches build_rules (facts es)
       = pair_of (if tablero then rule_arranque else rule_bateria) :: rest
    /\ length rest <= 1
    /\ stdout c' = show_results (matches build_rules (facts es)) out0
    /\ stdout c' !! (length out0 + 1)
       = Some ("1. Posible causa: "
               +:+ diagnosis (if tablero then rule_arranque else rule_bateria)).
Proof.
  rewrite run_interactive_spec.
  destruct (interactive_facts _) as [c1 [fs|e]] eqn:E; [|done].
  intros [= <- <-] Ha. cbn [facts stdout] in *.
  destruct (interactive_facts_keys _ _ _ E)
    as (a & t & h & Ha' & Ht & Hh & _ & _ & _ & _).
  rewrite Ha in Ha'. injection Ha' as <-.
  assert (C1 : cond_bateria fs = negb t).
  { unfold cond_bateria, get. rewrite Ha, Ht. by destruct t. }
  assert (C2 : cond_arranque fs = t).
  { unfold cond_arranque, get. rewrite Ha, Ht. by destruct t. }
  assert (C3 : cond_combustible fs = false).
  { unfold cond_combustible, get. by rewrite Ha. }
  pose proof (smoke_conds_exclusive fs) as C4.
  exists t,
    ((if cond_humo_negro fs then [pair_of rule_humo_negro] else [])
     ++ (if cond_junta fs then [pair_of rule_junta] else [])),
    (stdout c1).
  split; [done |].
  assert (Hm : matches build_rules fs
               = pair_of (if t then rule_arranque else rule_bateria)
                 :: ((if cond_humo_negro fs then [pair_of rule_humo_negro]
                      else [])
                     ++ (if cond_junta fs then [pair_of rule_junta] else []))).
  { rewrite matches_build_rules, C1, C2, C3. by destruct t. }
  split; [exact Hm |]. split.
  { destruct (cond_humo_negro fs), (cond_junta fs); simpl in *; try done; lia. }
  split; [done |]. rewrite Hm. apply show_results_first.
Qed.

Lemma interactive_no_start_first_cause_witness :
  run_interactive no_start_console
  = ((run_interactive no_start_console).1, Returns no_start_engine)
  /\ facts no_start_engine !! "arranca" = Some (VBool false)
  /\ exists out0 : list string,
       stdout (run_interactive no_start_console).1 !! (length out0 + 1)
       = Some "1. Posible causa: batería descargada".
Proof.
  assert (E : run_interactive no_start_console
              = ((run_interactive no_start_console).1, Returns no_start_engine))
    by (vm_compute; reflexivity).
  assert (Ha : facts no_start_engine !! "arranca" = Some (VBool false))
    by reflexivity.
  split; [exact E |]. split; [exact Ha |].
  destruct (interactive_no_start_first_cause no_start_console _
              no_start_engine E Ha)
    as (t & rest & out0 & Ht & _ & _ & _ & Hl).
  exists out0. vm_compute in Ht. injection Ht as <-. exact Hl.
Defined.

(** X19.  [main] either runs flag mode, which builds the dictionary from
    the flags, leaves the input unread and cannot fail, or runs the
    interactive session; it can only fail with [EOFError], and only when
    the mode is not cli and either interactive mode was asked for or no
    symptom flag was passed. *)
Theorem main_outcome (args : Args.Namespace) (c : console) :
  match main args c with
  | (c', Returns es) =>
      rules es = build_rules
      /\ ((facts es = cli_facts args /\ stdin c' = stdin c)
          \/ (Args.modo args <> Some "cli"
              /\ exists used, stdin c = used ++ stdin c' /\ 3 <= length used))
  | (c', Raises e) =>
      e = eof /\ stdin c' = [] /\ Args.modo args <> Some "cli"
      /\ (Args.modo args = Some "interactivo" \/ passed_flags args = false)
  end.
Proof.
  assert (Hcli : match run_cli_io args c with
                 | (c', Returns es) =>
                     rules es = build_rules
                     /\ facts es = cli_facts args /\ stdin c' = stdin c
                 | (c', Raises e) => False
                 end).
  { unfold run_cli_io. by rewrite run_cli_output. }
  pose proof (run_interactive_cases c) as Hint.
  unfold main. case_bool_decide as Hm.
  { destruct (run_cli_io args c) as [c' [es|e]]; [|done].
    destruct Hcli as (? & ? & ?). split; [done | by left]. }
  case_bool_decide as Hi.
  { destruct (run_interactive c) as [c' [es|e]].
    - destruct Hint as [? ?]. split; [done | by right].
    - destruct Hint as [-> ->]. repeat split; [done | by left]. }
  destruct (passed_flags args) eqn:Hp.
  { destruct (run_cli_io args c) as [c' [es|e]]; [|done].
    destruct Hcli as (? & ? & ?). split; [done | by left]. }
  destruct (run_interactive c) as [c' [es|e]].
  - destruct Hint as [? ?]. split; [done | by right].
  - destruct Hint as [-> ->]. repeat split; [done | by right].
Qed.
